(** * GraphQLService: dynamic schema compiler and query resolver

    A shallow embedding of [GraphQLService] (the TypeScript class whose
    methods are [execute], [getSchema], [getDynamicQuerySchema],
    [getFilterArgs], [resolve], [getData] and [parseArgs]) together with
    the properties its specification states about it.

    Conventions of the embedding.
    - A JavaScript object used as a record with string keys is the
      association list of its own properties, in the order they were
      created in ([JSObj]); reading a property is [js_get], assigning one is
      [js_set] (an existing key keeps its position, a new key goes last).
      This is the order JavaScript enumerates the keys in unless a key is
      an array index, and what a read gives unless the name is one every
      object inherits from [Object.prototype]; a property that depends on
      either says so in a hypothesis ([no_index_key], [own_arguments],
      [writable]).
    - A GraphQL type that the source reaches through a table
      ([filterTypes[c]], [graphqlSchema[c].type]) is referred to by the key
      it is stored under; the lazily evaluated [fields: () => ...] thunk of
      a type is the function that computes its member table.
    - Code that can throw runs in the monad [M], which threads the log of
      warnings and the log of calls made to the data-access services.
      Building the engine's schema runs thunks and is such code. *)

From Stdlib Require Import String Ascii List Bool ZArith Lia.
Import ListNotations.
Open Scope string_scope.
Open Scope list_scope.

Set Implicit Arguments.
Set Warnings "-register-all".

(** String concatenation, as [+] and template literals build strings. *)
Infix "+++" := String.append (at level 60, right associativity).

(* ================================================================== *)
(** ** JavaScript values and objects *)

Module JS.

(** An object with string keys, in enumeration order. *)
Definition JSObj (V : Type) : Type := list (string * V).

Fixpoint js_get {V} (o : JSObj V) (k : string) : option V :=
  match o with
  | [] => None
  | (k', v) :: o' => if String.eqb k' k then Some v else js_get o' k
  end.

(** [o[k] = v], for a key other than [__proto__]. *)
Fixpoint js_set {V} (o : JSObj V) (k : string) (v : V) : JSObj V :=
  match o with
  | [] => [(k, v)]
  | (k', v') :: o' =>
      if String.eqb k' k then (k', v) :: o' else (k', v') :: js_set o' k v
  end.

Definition js_has {V} (o : JSObj V) (k : string) : bool :=
  match js_get o k with Some _ => true | None => false end.

Definition Object_keys {V} (o : JSObj V) : list string := map fst o.
Definition Object_values {V} (o : JSObj V) : list V := map snd o.
Definition Object_entries {V} (o : JSObj V) : list (string * V) := o.

(** [s.startsWith(p)]. *)
Definition startsWith (s p : string) : bool := String.prefix p s.

(** A property key computed from a value that may be [null]:
    [o[null]] reads the property named ["null"]. *)
Definition key_of (k : option string) : string :=
  match k with Some s => s | None => "null" end.

(** Plain data as it travels through arguments, queries and results. *)
Inductive JSValue : Type :=
| JUndefined
| JNull
| JBool (b : bool)
| JNumber (n : Z)
| JString (s : string)
| JArray (items : list JSValue)
| JObject (props : list (string * JSValue)).

(** [!!v] *)
Definition truthy (v : JSValue) : bool :=
  match v with
  | JUndefined | JNull => false
  | JBool b => b
  | JNumber n => negb (Z.eqb n 0)
  | JString s => negb (String.eqb s "")
  | JArray _ | JObject _ => true
  end.

End JS.
Import JS.

(* ================================================================== *)
(** ** Schema overview: collections, fields, relations *)

Record Field : Type := {
  field : string;
  type : string;              (* the local (storage) kind of the field *)
  note : option string
}.

Record Collection : Type := {
  collection : string;
  primary : string;
  singleton : bool;
  collection_note : option string;
  fields : JSObj Field
}.

Record Relation : Type := {
  many_collection : string;
  many_field : string;
  one_collection : option string;
  one_field : option string;
  one_collection_field : option string;
  one_allowed_collections : option (list string)
}.

Record SchemaOverview : Type := {
  collections : JSObj Collection;
  relations : list Relation
}.

Inductive RelationType : Type := m2o | o2m | m2a.

(** A schema overview is built of objects: the keys of [collections] are
    pairwise distinct, and so are the names of the fields of a collection. *)
Fixpoint distinct (names : list string) : bool :=
  match names with
  | [] => true
  | name :: rest => negb (existsb (String.eqb name) rest) && distinct rest
  end.

Definition field_names (c : Collection) : list string :=
  map field (Object_values c.(fields)).

Definition well_formed (schema : SchemaOverview) : bool :=
  distinct (Object_keys schema.(collections))
  && forallb (fun c => distinct (field_names c)) (Object_values schema.(collections)).

(** [x === s] for a nullable string [x]. *)
Definition nullable_eqb (x : option string) (s : string) : bool :=
  match x with Some x' => String.eqb x' s | None => false end.

(** The predicate both compilers pass to [relations.find]. *)
Definition relation_matches (collectionName fieldName : string) (relation : Relation) : bool :=
  (String.eqb relation.(many_collection) collectionName
     && String.eqb relation.(many_field) fieldName)
  || (nullable_eqb relation.(one_collection) collectionName
        && nullable_eqb relation.(one_field) fieldName).

Definition relationForField (rels : list Relation) (collectionName fieldName : string)
  : option Relation :=
  find (relation_matches collectionName fieldName) rels.

(* ================================================================== *)
(** ** GraphQL types *)

Inductive GraphQLScalarType : Type :=
| GraphQLID
| GraphQLString
| GraphQLInt
| GraphQLBoolean
| GraphQLScalar (name : string).   (* any other scalar of the mapping table *)

(** Input types.  [InFilter c] is the object stored at [filterTypes[c]];
    [InUndefined] is what a read of [filterTypes] gives for a missing key. *)
Inductive InputType : Type :=
| InScalar (t : GraphQLScalarType)
| InList (ofType : InputType)
| InFilter (collectionName : string)
| InUndefined
| InOperators (name : string) (members : JSObj InputType).

(** The utilities imported from [../utils]: the scalar mapping table and
    the relation classifier.  Their code is not part of this service. *)
Class SchemaUtils : Type := {
  getGraphQLType : string -> GraphQLScalarType;
  getRelationType : Relation -> string -> string -> option RelationType
}.

(** Modelled from the spec: [getRelationType] of [../utils/get-relation-type]
    is missing; section 4.1 gives its rule.  A pair that matches the many
    side is many-to-any when the relation declares a discriminator field and
    a set of allowed collections, many-to-one otherwise; a pair that matches
    the one side is one-to-many; any other pair is not classified. *)
Definition classifyRelation (relation : Relation) (collectionName fieldName : string)
  : option RelationType :=
  if String.eqb relation.(many_collection) collectionName
       && String.eqb relation.(many_field) fieldName
  then match relation.(one_collection_field), relation.(one_allowed_collections) with
       | Some _, Some _ => Some m2a
       | _, _ => Some m2o
       end
  else if nullable_eqb relation.(one_collection) collectionName
            && nullable_eqb relation.(one_field) fieldName
  then Some o2m
  else None.

(* ================================================================== *)
(** ** getFilterArgs *)

Section FilterArgs.
Context {utils : SchemaUtils}.

(** [filterTypes[name]], read once every collection has its entry. *)
Definition filterTypes_ref (schema : SchemaOverview) (name : string) : InputType :=
  if js_has schema.(collections) name then InFilter name else InUndefined.

Definition fieldType (c : Collection) (f : Field) : GraphQLScalarType :=
  if String.eqb c.(primary) f.(field) then GraphQLID else getGraphQLType f.(type).

(** The operator-set type of one scalar field. *)
Definition filter_operators (collectionName : string) (c : Collection) (f : Field)
  : InputType :=
  let fieldType := fieldType c f in
  InOperators (collectionName +++ "_" +++ f.(field) +++ "_filter_operators")
    [ ("_eq", InScalar fieldType);
      ("_neq", InScalar fieldType);
      ("_contains", InScalar fieldType);
      ("_ncontains", InScalar fieldType);
      ("_in", InList (InScalar fieldType));
      ("_nin", InList (InScalar fieldType));
      ("_gt", InScalar fieldType);
      ("_gte", InScalar fieldType);
      ("_lt", InScalar fieldType);
      ("_lte", InScalar fieldType);
      ("_null", InScalar GraphQLBoolean);
      ("_nnull", InScalar GraphQLBoolean);
      ("_empty", InScalar GraphQLBoolean);
      ("_nempty", InScalar GraphQLBoolean) ].

(** One turn of the loop over [Object.values(collection.fields)]. *)
Definition filterFields_step (schema : SchemaOverview) (collectionName : string)
    (c : Collection) (filterFields : JSObj InputType) (f : Field) : JSObj InputType :=
  if startsWith f.(field) "__" then filterFields
  else
    match relationForField schema.(relations) collectionName f.(field) with
    | Some relation =>
        match getRelationType relation collectionName f.(field) with
        | Some m2o =>
            js_set filterFields f.(field)
              (filterTypes_ref schema (key_of relation.(one_collection)))
        | Some o2m =>
            js_set filterFields f.(field)
              (filterTypes_ref schema relation.(many_collection))
        | _ => filterFields
        end
    | None =>
        js_set filterFields f.(field) (filter_operators collectionName c f)
    end.

(** The [fields] thunk of the filter type of one collection. *)
Definition filterFields (schema : SchemaOverview) (collectionName : string)
    (c : Collection) : JSObj InputType :=
  fold_left (filterFields_step schema collectionName c)
    (Object_values c.(fields))
    [ ("_and", InList (filterTypes_ref schema collectionName));
      ("_or", InList (filterTypes_ref schema collectionName)) ].

Record GraphQLInputObjectType : Type := {
  input_name : string;
  input_fields : JSObj InputType
}.

Definition getFilterArgs (schema : SchemaOverview) : JSObj GraphQLInputObjectType :=
  fold_left
    (fun filterTypes '(collectionName, c) =>
       js_set filterTypes collectionName
         {| input_name := collectionName +++ "_filter";
            input_fields := filterFields schema collectionName c |})
    (Object_entries schema.(collections))
    [].

End FilterArgs.

(* ================================================================== *)
(** ** Effects: exceptions, the warning log, the data-access log *)

Inductive Exception : Type :=
| Error (message : string)
| TypeError (message : string)
| GraphQLError (message : string)
| InvalidPayloadException (message : string) (graphqlErrors : list Exception).

Inductive Outcome (A : Type) : Type :=
| Return (a : A)
| Throw (e : Exception).
Arguments Return {A} a.
Arguments Throw {A} e.

(** The accessor a query is handed to.  Every constructor but the last is
    one of the specialised services; [ItemsService c] is the generic one. *)
Inductive Service : Type :=
| ActivityService
| FilesService
| FoldersService
| PermissionsService
| PresetsService
| RelationsService
| RevisionsService
| RolesService
| SettingsService
| UsersService
| WebhooksService
| ItemsService (collection : string).

Inductive ReadOperation : Type := readSingleton | readByQuery.

(** A query is the plain object [sanitizeQuery] returns. *)
Definition Query : Type := JSObj JSValue.

Record ServiceCall : Type := {
  call_service : Service;
  call_operation : ReadOperation;
  call_query : Query;
  call_stripNonRequested : bool
}.

Record World : Type := {
  warnings : list string;
  calls : list ServiceCall
}.

Definition M (A : Type) : Type := World -> Outcome A * World.

Definition ret {A} (a : A) : M A := fun w => (Return a, w).

Definition throw {A} (e : Exception) : M A := fun w => (Throw e, w).

Definition bind {A B} (m : M A) (k : A -> M B) : M B :=
  fun w =>
    match m w with
    | (Return a, w') => k a w'
    | (Throw e, w') => (Throw e, w')
    end.

Declare Scope service_scope.
Delimit Scope service_scope with service.
Notation "x <- m ;; k" := (bind m (fun x => k))
  (at level 100, m at next level, right associativity) : service_scope.
Notation "m ;;; k" := (bind m (fun _ => k))
  (at level 100, right associativity) : service_scope.
Open Scope service_scope.

Definition logger_warn (message : string) : M unit :=
  fun w => (Return tt, {| warnings := w.(warnings) ++ [message]; calls := w.(calls) |}).

Fixpoint mapM {A B} (f : A -> M B) (l : list A) : M (list B) :=
  match l with
  | [] => ret []
  | a :: l' => b <- f a ;; bs <- mapM f l' ;; ret (b :: bs)
  end.

Fixpoint foldM {A B} (f : A -> B -> M A) (l : list B) (a : A) : M A :=
  match l with
  | [] => ret a
  | b :: l' => a' <- f a b ;; foldM f l' a'
  end.

(* ================================================================== *)
(** ** getDynamicQuerySchema *)

(** Output types.  [OutObject c] is the object type stored at
    [graphqlSchema[c].type]; a union keeps what its [resolveType] closure
    captures: the member types and the relation's discriminator field. *)
Inductive OutputType : Type :=
| OutScalar (t : GraphQLScalarType)
| OutObject (name : string)
| OutList (ofType : OutputType)
| OutUnion (name : string) (types : list OutputType) (one_collection_field : option string).

Record ArgConfig : Type := {
  arg_name : option string;
  arg_type : InputType
}.

Record FieldConfig : Type := {
  config_type : OutputType;
  config_args : option (JSObj ArgConfig);
  description : option string
}.

(** One entry of [graphqlSchema] (its [resolve] closure is [resolve] below). *)
Record SchemaSection : Type := {
  section_type : OutputType;
  section_args : JSObj ArgConfig
}.

Inductive Scope : Type := items | system.

Record GraphQLSchema : Type := {
  query_name : string;
  query_fields : JSObj SchemaSection
}.

Definition quote : string := String "034"%char EmptyString.

(** [this.args] *)
Definition shared_args : JSObj ArgConfig :=
  [ ("sort", {| arg_name := None; arg_type := InList (InScalar GraphQLString) |});
    ("limit", {| arg_name := None; arg_type := InScalar GraphQLInt |});
    ("offset", {| arg_name := None; arg_type := InScalar GraphQLInt |});
    ("page", {| arg_name := None; arg_type := InScalar GraphQLInt |});
    ("search", {| arg_name := None; arg_type := InScalar GraphQLString |}) ].

Section DynamicQuerySchema.
Context {utils : SchemaUtils}.

(** The first loop of [getDynamicQuerySchema]: one section per collection
    that has fields, stored under [collection.collection]. *)
Definition graphqlSchema (schema : SchemaOverview) : JSObj SchemaSection :=
  fold_left
    (fun graphqlSchema c =>
       if Nat.eqb (List.length (Object_keys c.(fields))) 0 then graphqlSchema
       else
         js_set graphqlSchema c.(collection)
           {| section_type := OutObject c.(collection);
              section_args :=
                shared_args ++
                [ ("filter",
                   {| arg_name := Some (c.(collection) +++ "_filter");
                      arg_type := filterTypes_ref schema c.(collection) |}) ] |})
    (Object_values schema.(collections))
    [].

(** [graphqlSchema[name].type], as the field thunks read it. *)
Definition graphqlSchema_type (schema : SchemaOverview) (name : string) : M OutputType :=
  match js_get (graphqlSchema schema) name with
  | Some section => ret section.(section_type)
  | None => throw (TypeError "Cannot read property 'type' of undefined")
  end.

Definition reserved_field_warning (c : Collection) (f : Field) : string :=
  "GraphQL doesn't allow fields starting with " +++ quote +++ "__" +++ quote
    +++ ". Field " +++ quote +++ f.(field) +++ quote
    +++ " in collection " +++ quote +++ c.(collection) +++ quote
    +++ " is unavailable in the GraphQL endpoint.".

(** What one field writes into [fieldsObject] before its description is
    set.  [self] is [this.schema], [schema] the schema being compiled. *)
Definition fieldsObject_assign (self schema : SchemaOverview) (c : Collection)
    (fieldsObject : JSObj FieldConfig) (f : Field) : M (JSObj FieldConfig) :=
  match relationForField self.(relations) c.(collection) f.(field) with
  | Some relation =>
      match getRelationType relation c.(collection) f.(field) with
      | Some m2o =>
          relatedType <- graphqlSchema_type schema (key_of relation.(one_collection)) ;;
          ret (js_set fieldsObject f.(field)
                 {| config_type := relatedType; config_args := None; description := None |})
      | Some o2m =>
          relatedType <- graphqlSchema_type schema relation.(many_collection) ;;
          ret (js_set fieldsObject f.(field)
                 {| config_type := OutList relatedType;
                    config_args :=
                      Some (shared_args ++
                            [ ("filter",
                               {| arg_name := None;
                                  arg_type := filterTypes_ref schema relation.(many_collection) |}) ]);
                    description := None |})
      | Some m2a =>
          match relation.(one_allowed_collections) with
          | None => throw (TypeError "relatedCollections is not iterable")
          | Some relatedCollections =>
              types <- mapM (graphqlSchema_type schema) relatedCollections ;;
              ret (js_set fieldsObject f.(field)
                     {| config_type :=
                          OutUnion (c.(collection) +++ "__" +++ f.(field)) types
                            relation.(one_collection_field);
                        config_args := None;
                        description := None |})
          end
      | None => ret fieldsObject
      end
  | None =>
      ret (js_set fieldsObject f.(field)
             {| config_type := OutScalar (fieldType c f);
                config_args := None;
                description := None |})
  end.

(** One turn of the loop over [Object.values(collection.fields)] in the
    [fields] thunk of an object type. *)
Definition fieldsObject_step (self schema : SchemaOverview) (c : Collection)
    (fieldsObject : JSObj FieldConfig) (f : Field) : M (JSObj FieldConfig) :=
  if startsWith f.(field) "__" then
    logger_warn (reserved_field_warning c f) ;;; ret fieldsObject
  else
    fieldsObject' <- fieldsObject_assign self schema c fieldsObject f ;;
    match js_get fieldsObject' f.(field) with
    | Some config =>
        ret (js_set fieldsObject' f.(field)
               {| config_type := config.(config_type);
                  config_args := config.(config_args);
                  description := f.(note) |})
    | None => throw (TypeError "Cannot set property 'description' of undefined")
    end.

(** The [fields] thunk of the object type of one collection. *)
Definition objectFields (self schema : SchemaOverview) (c : Collection)
  : M (JSObj FieldConfig) :=
  foldM (fieldsObject_step self schema c) (Object_values c.(fields)) [].

(** The second loop: list collections are wrapped in a list. *)
Definition schemaWithLists (schema : SchemaOverview) : JSObj SchemaSection :=
  fold_left
    (fun schemaWithLists c =>
       if Nat.eqb (List.length (Object_keys c.(fields))) 0 then schemaWithLists
       else if c.(singleton) then schemaWithLists
       else
         match js_get schemaWithLists c.(collection) with
         | Some section =>
             js_set schemaWithLists c.(collection)
               {| section_type := OutList section.(section_type);
                  section_args := section.(section_args) |}
         | None => schemaWithLists
         end)
    (Object_values schema.(collections))
    (graphqlSchema schema).

(** [key.substring(9)] *)
Definition substring_from (n : nat) (s : string) : string :=
  String.substring n (String.length s - n) s.

Definition queryBase_fields (schema : SchemaOverview) (scope : Scope)
  : JSObj SchemaSection :=
  let schemaWithLists := schemaWithLists schema in
  match scope with
  | system =>
      fold_left
        (fun fields '(key, section) =>
           if negb (startsWith key "directus_") then fields
           else js_set fields (substring_from 9 key) section)
        schemaWithLists []
  | items =>
      fold_left
        (fun fields '(key, section) =>
           if startsWith key "directus_" then fields
           else js_set fields key section)
        schemaWithLists []
  end.

(** The query type [getDynamicQuerySchema] builds, [queryBase]: its name
    and the root fields of the scope.  The constructor of the engine's
    schema, which the method wraps around it before it returns, is
    [new_GraphQLSchema] below. *)
Definition getDynamicQuerySchema (schema : SchemaOverview) (scope : Scope) : GraphQLSchema :=
  {| query_name := "Query"; query_fields := queryBase_fields schema scope |}.

End DynamicQuerySchema.

(* ================================================================== *)
(** ** Property reads on plain data and [resolveType] *)

(** A key of a response path: a field's response name or a list index. *)
Inductive PathKey : Type :=
| KeyString (s : string)
| KeyNumber (n : nat).

(** [info.path]: a linked list from the current field up to the root field. *)
Inductive Path : Type :=
| MkPath (prev : option Path) (key : PathKey).

Definition digit_of_ascii (c : ascii) : option nat :=
  let n := nat_of_ascii c in
  if (48 <=? n)%nat && (n <=? 57)%nat then Some (n - 48) else None.

Fixpoint digits_value (s : string) (acc : nat) : option nat :=
  match s with
  | EmptyString => Some acc
  | String c s' =>
      match digit_of_ascii c with
      | Some d => digits_value s' (10 * acc + d)
      | None => None
      end
  end.

(** The array index a property name denotes: ["0"], or digits that do not
    start with a zero. *)
Definition index_of_key (s : string) : option nat :=
  match s with
  | EmptyString => None
  | String c s' =>
      if Ascii.eqb c "0"%char
      then (if String.eqb s' "" then Some 0 else None)
      else digits_value s 0
  end.

(** A number used as the name of a property of an object. *)
Fixpoint decimal_digits (fuel n : nat) (acc : string) : string :=
  match fuel with
  | O => acc
  | S fuel' =>
      let acc' := String (ascii_of_nat (48 + n mod 10)) acc in
      if (n <? 10)%nat then acc' else decimal_digits fuel' (n / 10) acc'
  end.

Definition string_of_index (n : nat) : string := decimal_digits (S n) n "".

Definition array_get (a : list JSValue) (i : nat) : JSValue :=
  nth i a JUndefined.

(** [v[k]] for a [v] that is neither [undefined] nor [null]: own properties
    of objects, elements and [length] of arrays and strings.  Inherited
    members (methods, [constructor]) are functions, which plain data cannot
    hold; a read of one of them gives [JUndefined] here. *)
Definition own_property (v : JSValue) (k : PathKey) : JSValue :=
  match v, k with
  | JObject props, KeyString s =>
      match js_get props s with Some x => x | None => JUndefined end
  | JObject props, KeyNumber n =>
      match js_get props (string_of_index n) with Some x => x | None => JUndefined end
  | JArray a, KeyNumber n => array_get a n
  | JArray a, KeyString s =>
      if String.eqb s "length" then JNumber (Z.of_nat (List.length a))
      else match index_of_key s with Some n => array_get a n | None => JUndefined end
  | JString t, KeyNumber n =>
      match String.get n t with Some c => JString (String c "") | None => JUndefined end
  | JString t, KeyString s =>
      if String.eqb s "length" then JNumber (Z.of_nat (String.length t))
      else match index_of_key s with
           | Some n =>
               match String.get n t with Some c => JString (String c "") | None => JUndefined end
           | None => JUndefined
           end
  | _, _ => JUndefined
  end.

(** [v[k]] as JavaScript evaluates it: a read on [undefined] or [null] throws. *)
Definition js_read (v : JSValue) (k : PathKey) : M JSValue :=
  match v with
  | JUndefined => throw (TypeError "Cannot read property of undefined")
  | JNull => throw (TypeError "Cannot read property of null")
  | _ => ret (own_property v k)
  end.

(** The [while (currentPath.prev)] loop: the keys from the current field
    upwards; the key of the root field, which has no [prev], is not pushed. *)
Fixpoint path_keys (currentPath : Path) : list PathKey :=
  match currentPath with
  | MkPath None _ => []
  | MkPath (Some prev) key => key :: path_keys prev
  end.

(** [a.slice(start, end)] *)
Definition Array_slice {A} (a : list A) (start finish : Z) : list A :=
  let len := Z.of_nat (List.length a) in
  let k := if (start <? 0)%Z then Z.max (len + start) 0 else Z.min start len in
  let final := if (finish <? 0)%Z then Z.max (len + finish) 0 else Z.min finish len in
  firstn (Z.to_nat (Z.max (final - k) 0)) (skipn (Z.to_nat k) a).

(** [GraphQLType.name] *)
Definition type_name (t : OutputType) : option string :=
  match t with
  | OutScalar GraphQLID => Some "ID"
  | OutScalar GraphQLString => Some "String"
  | OutScalar GraphQLInt => Some "Int"
  | OutScalar GraphQLBoolean => Some "Boolean"
  | OutScalar (GraphQLScalar n) => Some n
  | OutObject n => Some n
  | OutList _ => None
  | OutUnion n _ _ => Some n
  end.

(** [GraphQLType.name === type] *)
Definition name_is (type : JSValue) (t : OutputType) : bool :=
  match type_name t, type with
  | Some n, JString s => String.eqb n s
  | _, _ => false
  end.

(** The [resolveType] closure of a union: [types] and [one_collection_field]
    are what it captures, [context_data] is [context.data] and [info_path]
    is [info.path].  Its result [None] is [undefined]. *)
Definition resolveType (types : list OutputType) (one_collection_field : option string)
    (context_data : JSValue) (info_path : Path) : M (option OutputType) :=
  let path := Array_slice (rev (path_keys info_path)) 1 (-1) in
  parent <- foldM js_read path context_data ;;
  type <- js_read parent (KeyString (key_of one_collection_field)) ;;
  ret (find (name_is type) types).

(** [resolveType] of a compiled field type; only a union has one. *)
Definition union_resolveType (t : OutputType) (context_data : JSValue) (info_path : Path)
  : option (M (option OutputType)) :=
  match t with
  | OutUnion _ types one_collection_field =>
      Some (resolveType types one_collection_field context_data info_path)
  | _ => None
  end.

(* ================================================================== *)
(** ** The query-language AST and [parseArgs] *)

Inductive ValueNode : Type :=
| VariableNode (name : string)
| IntValue (value : string)
| FloatValue (value : string)
| StringValue (value : string)
| BooleanValue (value : bool)
| NullValue
| EnumValue (value : string)
| ListValue (values : list ValueNode)
| ObjectValue (fields : list (string * ValueNode)).

(** An argument and an object field have the same shape: a name and a value. *)
Definition ArgumentNode : Type := (string * ValueNode)%type.

Inductive SelectionNode : Type :=
| FieldNode (name : string) (arguments : list ArgumentNode)
    (selectionSet : option (list SelectionNode))
| InlineFragment (typeCondition : option string) (selectionSet : list SelectionNode)
| FragmentSpread (name : string).

(** [(node as any).value] *)
Definition node_value (node : ValueNode) : JSValue :=
  match node with
  | IntValue v | FloatValue v | StringValue v | EnumValue v => JString v
  | BooleanValue b => JBool b
  | VariableNode _ | NullValue | ListValue _ | ObjectValue _ => JUndefined
  end.

(** [variableValues[name]], for a name the object does not inherit. *)
Definition variable_value (variableValues : JSObj JSValue) (name : string) : JSValue :=
  match js_get variableValues name with Some v => v | None => JUndefined end.

(** What [parseArgs] stores under the name of one argument. *)
Fixpoint parseArgs_value (variableValues : JSObj JSValue) (value : ValueNode) : JSValue :=
  match value with
  | ObjectValue fields =>
      JObject
        (fold_left
           (fun argsObject '(name, v) =>
              js_set argsObject name (parseArgs_value variableValues v))
           fields [])
  | VariableNode name => variable_value variableValues name
  | ListValue values =>
      JArray
        (map (fun valueNode =>
                match valueNode with
                | ObjectValue _ => parseArgs_value variableValues valueNode
                | _ => node_value valueNode
                end)
           values)
  | _ => node_value value
  end.

Definition parseArgs (args : list ArgumentNode) (variableValues : JSObj JSValue)
  : JSObj JSValue :=
  fold_left
    (fun argsObject '(name, value) =>
       js_set argsObject name (parseArgs_value variableValues value))
    args [].

(* ================================================================== *)
(** ** The lodash functions [getData] uses, on plain data

    Paths are built from names of the query language, which hold neither
    brackets nor quotes, so a path string is split at its dots.  A property
    of an array that is not an index cannot be held by [JSValue]; an
    assignment to one leaves the array as it is. *)

Module Lodash.

Definition isObject (v : JSValue) : bool :=
  match v with JArray _ | JObject _ => true | _ => false end.

Fixpoint split_dots (s : string) (current : string) : list string :=
  match s with
  | EmptyString => [current]
  | String c s' =>
      if Ascii.eqb c "."%char then current :: split_dots s' ""
      else split_dots s' (current +++ String c "")
  end.

Fixpoint has_dot (s : string) : bool :=
  match s with
  | EmptyString => false
  | String c s' => Ascii.eqb c "."%char || has_dot s'
  end.

(** [key in Object(object)], own properties only. *)
Definition has_property (object : JSValue) (key : string) : bool :=
  match object with
  | JObject props => js_has props key
  | JArray a =>
      String.eqb key "length"
      || match index_of_key key with Some n => (n <? List.length a)%nat | None => false end
  | _ => false
  end.

(** [castPath(path, object)] for a string path. *)
Definition castPath (path : string) (object : JSValue) : list string :=
  if negb (has_dot path) || has_property object path then [path]
  else split_dots path "".

(** [get(object, path)] *)
Definition get (object : JSValue) (path : string) : JSValue :=
  let keys := castPath path object in
  fold_left
    (fun o key =>
       match o with
       | JUndefined | JNull => JUndefined
       | _ => own_property o (KeyString key)
       end)
    keys object.

Fixpoint array_set (a : list JSValue) (i : nat) (v : JSValue) : list JSValue :=
  match i, a with
  | O, [] => [v]
  | O, _ :: a' => v :: a'
  | S i', [] => JUndefined :: array_set [] i' v
  | S i', x :: a' => x :: array_set a' i' v
  end.

(** [object[key] = value] on an object or an array. *)
Definition assign (object : JSValue) (key : string) (value : JSValue) : JSValue :=
  match object with
  | JObject props => JObject (js_set props key value)
  | JArray a =>
      match index_of_key key with
      | Some n => JArray (array_set a n value)
      | None => object
      end
  | _ => object
  end.

Definition unsafe_key (key : string) : bool :=
  String.eqb key "__proto__" || String.eqb key "constructor" || String.eqb key "prototype".

(** The loop of [baseSet] over the keys of the path. *)
Fixpoint baseSet (nested : JSValue) (keys : list string) (value : JSValue) : JSValue :=
  match keys with
  | [] => nested
  | key :: rest =>
      if unsafe_key key then nested
      else
        match rest with
        | [] => assign nested key value
        | next :: _ =>
            let objValue := own_property nested (KeyString key) in
            let newValue :=
              if isObject objValue then objValue
              else match index_of_key next with
                   | Some _ => JArray []
                   | None => JObject []
                   end in
            assign nested key (baseSet newValue rest value)
        end
  end.

(** [set(object, path, value)] *)
Definition set (object : JSValue) (path : string) (value : JSValue) : JSValue :=
  if isObject object then baseSet object (castPath path object) value else object.

(** [assignMergeValue(object, key, value)] *)
Definition assignMergeValue (object : JSValue) (key : string) (value : JSValue) : JSValue :=
  match value with
  | JUndefined => if has_property object key then object else assign object key value
  | _ => assign object key value
  end.

(** The value [baseMergeDeep] merges an object or array of the source
    into: the value already there when it can take it, a fresh one
    otherwise. *)
Definition mergeDeep_target (objValue srcValue : JSValue) : JSValue :=
  match srcValue with
  | JArray _ => match objValue with JArray _ => objValue | _ => JArray [] end
  | _ => if isObject objValue then objValue else JObject []
  end.

(** [baseMerge(object, source)]: [source] is merged into [object], key by
    key, in the order of its keys. *)
Fixpoint baseMerge (object source : JSValue) {struct source} : JSValue :=
  let mergeValue (object : JSValue) (key : string) (srcValue : JSValue) : JSValue :=
    let objValue := own_property object (KeyString key) in
    assignMergeValue object key
      match srcValue with
      | JArray _ | JObject _ => baseMerge (mergeDeep_target objValue srcValue) srcValue
      | _ => srcValue
      end in
  match source with
  | JObject props =>
      fold_left (fun object '(key, srcValue) => mergeValue object key srcValue) props object
  | JArray srcItems =>
      snd (fold_left
             (fun '(index, object) srcValue =>
                (S index, mergeValue object (string_of_index index) srcValue))
             srcItems (0%nat, object))
  | _ => object
  end.

(** [merge(object, source)]: [source] is merged into [Object(object)],
    which is [object] itself when it is an object and an empty object when
    it is missing.  (Of a string, a number or a boolean [Object] makes a
    wrapper, which plain data does not hold; it stands as an empty object
    here, and the properties of [merge] below are stated for a block or a
    missing one.) *)
Definition merge (object source : JSValue) : JSValue :=
  baseMerge (if isObject object then object else JObject []) source.

(** [mapKeys(object, (value, key) => iteratee(key))] *)
Definition mapKeys (object : JSObj JSValue) (iteratee : string -> string) : JSObj JSValue :=
  fold_left (fun result '(key, value) => js_set result (iteratee key) value) object [].

End Lodash.

(* ================================================================== *)
(** ** The service and its collaborators *)

Record Accountability : Type := {
  role : option string;
  admin : option bool
}.

Record GraphQLService : Type := {
  accountability : option Accountability;
  schema : SchemaOverview
}.

(** One row of the static table of system collections. *)
Record CollectionMeta : Type := {
  meta_collection : string;
  meta_singleton : bool
}.

(** What [collectionInfo] holds: the row the database gave, or the row of
    the static table. *)
Inductive CollectionInfo : Type :=
| DatabaseRow (singleton : bool)
| SystemRow (meta : CollectionMeta).

Definition info_singleton (info : CollectionInfo) : bool :=
  match info with
  | DatabaseRow s => s
  | SystemRow meta => meta.(meta_singleton)
  end.

Record ExecutionResult : Type := {
  data : JSValue;
  errors : option (list Exception)
}.

Record OperationDefinition : Type := {
  operation_name : option string;
  operation_selections : list SelectionNode
}.

Definition Document : Type := list OperationDefinition.

Record GraphQLResolveInfo : Type := {
  fieldName : string;
  fieldNodes : list SelectionNode;
  variableValues : JSObj JSValue;
  path : Path
}.

Record GraphQLParams : Type := {
  document : Document;
  variables : JSObj JSValue;
  operationName : option string
}.

(** What the constructor of the engine's schema does with the query type
    it is handed, one step after the other: it runs the [fields] thunk of
    an object type it has reached, or one of its own assertions fails. *)
Inductive ConstructionStep : Type :=
| RunThunk (name : string)
| AssertionFails (e : Exception).

(** Everything the service imports and calls but does not define:
    [sanitizeQuery] and [reduceSchema] of [../utils], the lookup
    [knex.select('singleton').from('directus_collections').where({collection}).first()],
    the table [systemCollectionRows], what the services answer to a read,
    and the constructor of [GraphQLSchema], [validate], [execute] and
    [formatError] of the query-language engine.  [schema_construction]
    gives the steps the constructor takes on a query type; [validate]
    returns the list of validation errors or throws an error of its own
    (it does on a schema it finds invalid).  [graphql_execute] is handed
    the resolver of the root fields, which takes the context object and
    gives it back, and then the schema, the document, the context value,
    the variables and the operation name. *)
Class Collaborators : Type := {
  sanitizeQuery : JSObj JSValue -> option Accountability -> Query;
  reduceSchema : SchemaOverview -> list string -> SchemaOverview;
  knex_first : string -> option bool;
  systemCollectionRows : list CollectionMeta;
  service_answer : ServiceCall -> Outcome JSValue;
  schema_construction : GraphQLSchema -> list ConstructionStep;
  validate : GraphQLSchema -> Document -> Outcome (list Exception);
  graphql_execute :
    (GraphQLResolveInfo -> JSObj JSValue -> M (JSValue * JSObj JSValue)) ->
    GraphQLSchema -> Document -> JSObj JSValue -> JSObj JSValue -> option string ->
    M ExecutionResult;
  formatError : Exception -> Exception
}.

(* ================================================================== *)
(** ** getData *)

Section ParseFieldsLoop.
Variable turn : SelectionNode -> option string -> Query -> Outcome (list string * Query).

(** The [for] loop of [parseFields]: [turn] is what one selection does, the
    paths it gives are pushed onto [fields]. *)
Fixpoint parseFields_loop (selections : list SelectionNode) (parent : option string)
    (query : Query) (fields : list string) : Outcome (list string * Query) :=
  match selections with
  | [] => Return (fields, query)
  | selection :: rest =>
      match turn selection parent query with
      | Return (pushed, query') => parseFields_loop rest parent query' (fields ++ pushed)
      | Throw e => Throw e
      end
  end.

End ParseFieldsLoop.

Section GetData.
Context {utils : SchemaUtils} {ext : Collaborators}.
Variable this : GraphQLService.

(** A string interpolated in a template literal; [undefined] prints itself. *)
Definition template (s : option string) : string :=
  match s with Some s' => s' | None => "undefined" end.

(** [if (parent)] *)
Definition parent_given (parent : option string) : bool :=
  match parent with Some s => negb (String.eqb s "") | None => false end.

Definition query_deep (query : Query) : JSValue :=
  match js_get query "deep" with Some v => v | None => JUndefined end.

(** The marker put before every key of a sanitized deep block. *)
Definition marked (key : string) : string := "_" +++ key.

(** The block a field with arguments leaves in [query.deep]:
    [if (!query.deep) query.deep = {}] and then
    [set(query.deep, current, merge(get(query.deep, current), mapKeys(...)))]. *)
Definition record_deep (variableValues : JSObj JSValue) (query : Query) (current : string)
    (arguments : list ArgumentNode) : Query :=
  let query := if truthy (query_deep query) then query else js_set query "deep" (JObject []) in
  let args := parseArgs arguments variableValues in
  let deep := query_deep query in
  js_set query "deep"
    (Lodash.set deep current
       (Lodash.merge (Lodash.get deep current)
          (JObject
             (Lodash.mapKeys (sanitizeQuery args this.(accountability)) marked)))).

(** One turn of the loop of [parseFields]: the paths one selection adds to
    [fields], and the query after it. *)
Fixpoint parseFields_selection (variableValues : JSObj JSValue) (selection : SelectionNode)
    (parent : option string) (query : Query) {struct selection}
  : Outcome (list string * Query) :=
  let parseFields selections parent query :=
    parseFields_loop (parseFields_selection variableValues) selections parent query [] in
  match selection with
  | FragmentSpread _ => Return ([], query)
  | InlineFragment typeCondition selectionSet =>
      match typeCondition with
      | None => Throw (TypeError "Cannot read property 'name' of undefined")
      | Some typeName =>
          if startsWith typeName "__" then Return ([], query)
          else
            let current := template parent +++ ":" +++ typeName in
            parseFields selectionSet (Some current) query
      end
  | FieldNode name arguments selectionSet =>
      if startsWith name "__" then Return ([], query)
      else
        let current := if parent_given parent then template parent +++ "." +++ name else name in
        let pushed :=
          match selectionSet with
          | Some selections => parseFields selections (Some current) query
          | None => Return ([current], query)
          end in
        match pushed with
        | Return (children, query') =>
            if (0 <? List.length arguments)%nat
            then Return (children, record_deep variableValues query' current arguments)
            else Return (children, query')
        | Throw e => Throw e
        end
  end.

(** [parseFields(selections, parent)], with the query it works on. *)
Definition parseFields (variableValues : JSObj JSValue) (selections : list SelectionNode)
    (parent : option string) (query : Query) : Outcome (list string * Query) :=
  parseFields_loop (parseFields_selection variableValues) selections parent query [].

(** The [switch (collection)] of [getData].  Each clause is a label and
    the service its statement assigns; the last clause is [default].  No
    clause of the source ends in [break]. *)
Definition switch_clauses (collection : string) : list (option string * Service) :=
  [ (Some "directus_activity", ActivityService);
    (Some "directus_files", FilesService);
    (Some "directus_folders", FoldersService);
    (Some "directus_folders", FoldersService);
    (Some "directus_permissions", PermissionsService);
    (Some "directus_presets", PresetsService);
    (Some "directus_relations", RelationsService);
    (Some "directus_revisions", RevisionsService);
    (Some "directus_roles", RolesService);
    (Some "directus_settings", SettingsService);
    (Some "directus_users", UsersService);
    (Some "directus_webhooks", WebhooksService);
    (None, ItemsService collection) ].

(** The clauses from the first one whose label is the discriminant on. *)
Fixpoint clauses_from_case (discriminant : string) (clauses : list (option string * Service))
  : option (list (option string * Service)) :=
  match clauses with
  | [] => None
  | (label, s) :: rest =>
      if nullable_eqb label discriminant then Some clauses
      else clauses_from_case discriminant rest
  end.

(** The clauses from [default] on. *)
Fixpoint clauses_from_default (clauses : list (option string * Service))
  : list (option string * Service) :=
  match clauses with
  | [] => []
  | (None, _) :: _ => clauses
  | (Some _, _) :: rest => clauses_from_default rest
  end.

(** A [switch] whose clauses have no [break]: control enters at the
    matching clause, or at [default], and runs every statement below it. *)
Definition run_switch (discriminant : string) (clauses : list (option string * Service))
    (service : option Service) : option Service :=
  let entered :=
    match clauses_from_case discriminant clauses with
    | Some cs => cs
    | None => clauses_from_default clauses
    end in
  fold_left (fun _ clause => Some (snd clause)) entered service.

Definition getData_service (collection : string) : option Service :=
  run_switch collection (switch_clauses collection) None.

(** [collectionInfo] *)
Definition collectionInfo (collection : string) : option CollectionInfo :=
  match knex_first collection with
  | Some s => Some (DatabaseRow s)
  | None =>
      match find (fun collectionMeta => String.eqb collectionMeta.(meta_collection) collection)
              systemCollectionRows with
      | Some meta => Some (SystemRow meta)
      | None => None
      end
  end.

(** [collectionInfo?.singleton] as a condition *)
Definition optional_singleton (info : option CollectionInfo) : bool :=
  match info with
  | Some info => info_singleton info
  | None => false
  end.

(** A read handed to a service: the call is logged, the service answers. *)
Definition service_read (service : Service) (operation : ReadOperation) (query : Query)
    (stripNonRequested : bool) : M JSValue :=
  fun w =>
    let call :=
      {| call_service := service;
         call_operation := operation;
         call_query := query;
         call_stripNonRequested := stripNonRequested |} in
    (service_answer call,
     {| warnings := w.(warnings); calls := w.(calls) ++ [call] |}).

Definition getData (collection : string) (selections : list SelectionNode)
    (argsArray : list ArgumentNode) (variableValues : JSObj JSValue) : M JSValue :=
  let args := parseArgs argsArray variableValues in
  let query := sanitizeQuery args this.(accountability) in
  match parseFields variableValues selections None query with
  | Throw e => throw e
  | Return (fields, query) =>
      let query := js_set query "fields" (JArray (map JString fields)) in
      match getData_service collection with
      | None => throw (TypeError "service is used before being assigned")
      | Some service =>
          if optional_singleton (collectionInfo collection)
          then service_read service readSingleton query false
          else service_read service readByQuery query false
      end
  end.

(** [resolve(info, scope)]; [info.fieldNodes] holds field nodes, and a
    first node without a selection set makes it return [null]. *)
Definition resolve (info : GraphQLResolveInfo) (scope : Scope) : M JSValue :=
  let collection :=
    match scope with
    | system => "directus_" +++ info.(fieldName)
    | items => info.(fieldName)
    end in
  match info.(fieldNodes) with
  | FieldNode _ arguments (Some selections) :: _ =>
      getData collection selections arguments info.(variableValues)
  | _ => ret JNull
  end.

(** The [resolve] closure of a schema section: the data of the root field
    is returned and kept in [context.data]. *)
Definition section_resolve (scope : Scope) (info : GraphQLResolveInfo)
    (context : JSObj JSValue) : M (JSValue * JSObj JSValue) :=
  data <- resolve info scope ;;
  ret (data, js_set context "data" data).

(* ================================================================== *)
(** ** getSchema and execute *)

(** The collection whose [fields] thunk the object type stored at
    [graphqlSchema[name]] carries: the last collection of that name that
    has fields. *)
Definition compiled_collection (schema : SchemaOverview) (name : string) : option Collection :=
  find (fun c => String.eqb c.(collection) name
                 && negb (Nat.eqb (List.length (Object_keys c.(fields))) 0))
    (rev (Object_values schema.(collections))).

(** One step of the constructor.  A thunk that is run logs what it logs
    and its exception is the constructor's. *)
Definition construction_step (self schema : SchemaOverview) (step : ConstructionStep)
  : M unit :=
  match step with
  | RunThunk name =>
      match compiled_collection schema name with
      | Some c => objectFields self schema c ;;; ret tt
      | None => ret tt
      end
  | AssertionFails e => throw e
  end.

(** [new GraphQLSchema({ query: new GraphQLObjectType(queryBase) })], the
    last statement of [getDynamicQuerySchema]: the engine walks the types
    the query type refers to, running the thunks of the object types on
    its way. *)
Definition new_GraphQLSchema (self schema : SchemaOverview) (queryBase : GraphQLSchema)
  : M GraphQLSchema :=
  foldM (fun _ step => construction_step self schema step)
    (schema_construction queryBase) tt ;;;
  ret queryBase.

Definition getSchema (scope : Scope) : M GraphQLSchema :=
  let self := this.(schema) in
  let schema :=
    match this.(accountability) with
    | Some {| admin := Some true |} => this.(schema)
    | _ => reduceSchema this.(schema) ["read"]
    end in
  new_GraphQLSchema self schema (getDynamicQuerySchema schema scope).

Definition execute (params : GraphQLParams) (scope : Scope) : M ExecutionResult :=
  schema <- getSchema scope ;;
  match validate schema params.(document) with
  | Throw e => throw e
  | Return validationErrors =>
      if (0 <? List.length validationErrors)%nat
      then throw (InvalidPayloadException "GraphQL validation error." validationErrors)
      else
        fun w =>
          match graphql_execute (section_resolve scope)
                  schema params.(document) [] params.(variables) params.(operationName) w with
          | (Return result, w') =>
              (Return {| data := result.(data);
                         errors := option_map (map formatError) result.(errors) |}, w')
          | (Throw err, w') =>
              (Throw (InvalidPayloadException "GraphQL execution error." [err]), w')
          end
  end.

End GetData.

(* ================================================================== *)
(** ** Vocabulary of the properties *)

(** A turn of a loop that fills an object leaves the entry [k] alone. *)
Definition keeps {T} (step : JSObj T -> Field -> JSObj T) (k : string) (f : Field) : Prop :=
  forall acc, js_get (step acc f) k = js_get acc k.

(** The names every object has from [Object.prototype] without holding
    them itself. *)
Definition Object_prototype_names : list string :=
  [ "__proto__"; "constructor"; "hasOwnProperty"; "isPrototypeOf";
    "propertyIsEnumerable"; "toLocaleString"; "toString"; "valueOf";
    "__defineGetter__"; "__defineSetter__"; "__lookupGetter__"; "__lookupSetter__" ].

(** A name an object answers to only when it holds it itself. *)
Definition own_name (name : string) : bool :=
  negb (existsb (String.eqb name) Object_prototype_names).






(** No name of the list reads as an array index.  (Of the keys of an
    object JavaScript lists those that are array indices first, in
    ascending order, and the others after them in the order they were
    created in; without such keys the order is the order of creation.) *)
Definition no_index_key (names : list string) : bool :=
  forallb (fun name => match index_of_key name with Some _ => false | None => true end)
    names.

(** Every name in a value of the query language, of a variable or of a
    field of an object, is such a name. *)
Fixpoint own_names (value : ValueNode) : bool :=
  match value with
  | VariableNode name => own_name name
  | ObjectValue fields => forallb (fun '(name, v) => own_name name && own_names v) fields
  | ListValue values => forallb own_names values
  | _ => true
  end.

Definition own_arguments (args : list ArgumentNode) : bool :=
  forallb (fun '(name, v) => own_name name && own_names v) args.

(** A path is a proper extension of another: it starts with it and is
    longer. *)
Definition extends (parent path : string) : Prop :=
  String.prefix parent path = true /\ String.length parent < String.length path.

(** A selection none of whose fields, at any depth, carries arguments. *)
Fixpoint no_arguments (selection : SelectionNode) : bool :=
  match selection with
  | FieldNode _ arguments selectionSet =>
      match arguments with [] => true | _ :: _ => false end
      && match selectionSet with
         | Some selections => forallb no_arguments selections
         | None => true
         end
  | InlineFragment _ selectionSet => forallb no_arguments selectionSet
  | FragmentSpread _ => true
  end.

(** The response path the engine builds for a field: the key of the root
    field, which has no [prev], and then one key for each step down. *)
Definition response_path (root : PathKey) (keys : list PathKey) : Path :=
  fold_left (fun prev key => MkPath (Some prev) key) keys (MkPath None root).

(** A field the compilers do not skip. *)
Definition exposed (f : Field) : bool := negb (startsWith f.(field) "__").

(** The names of the collections, in the order of [Object.values]. *)
Definition collection_names (schema : SchemaOverview) : list string :=
  map collection (Object_values schema.(collections)).

(** A collection has fields. *)
Definition has_fields (c : Collection) : bool :=
  negb (Nat.eqb (List.length (Object_keys c.(fields))) 0).

(** The collections a relation field points at have an entry in
    [graphqlSchema]: the one-side collection of a many-to-one field, the
    many-side collection of a one-to-many field, every allowed collection
    of a many-to-any field.  A field without a relation points at none. *)
Definition related_compiled {utils : SchemaUtils} (self schema : SchemaOverview)
    (c : Collection) (f : Field) : bool :=
  match relationForField self.(relations) c.(collection) f.(field) with
  | None => true
  | Some relation =>
      match getRelationType relation c.(collection) f.(field) with
      | Some m2o => js_has (graphqlSchema schema) (key_of relation.(one_collection))
      | Some o2m => js_has (graphqlSchema schema) relation.(many_collection)
      | Some m2a =>
          match relation.(one_allowed_collections) with
          | Some allowed => forallb (js_has (graphqlSchema schema)) allowed
          | None => false
          end
      | None => false
      end
  end.

(* ================================================================== *)
(** ** A small schema and stand-ins for the collaborators

    Used to run the definitions above on concrete inputs. *)

Module Example.

Definition mkField (name kind : string) : string * Field :=
  (name, {| field := name; type := kind; note := None |}).

Definition authors : Collection :=
  {| collection := "authors"; primary := "id"; singleton := false;
     collection_note := None;
     fields := [ mkField "id" "integer"; mkField "name" "string";
                 mkField "posts" "alias" ] |}.

Definition posts : Collection :=
  {| collection := "posts"; primary := "id"; singleton := false;
     collection_note := None;
     fields := [ mkField "id" "integer"; mkField "title" "string";
                 mkField "author" "integer"; mkField "__secret" "string" ] |}.

Definition pages : Collection :=
  {| collection := "pages"; primary := "id"; singleton := false;
     collection_note := None;
     fields := [ mkField "id" "integer"; mkField "body" "text" ] |}.

Definition sections : Collection :=
  {| collection := "sections"; primary := "id"; singleton := false;
     collection_note := None;
     fields := [ mkField "id" "integer"; mkField "collection" "string";
                 mkField "item" "string" ] |}.

Definition settings : Collection :=
  {| collection := "settings"; primary := "id"; singleton := true;
     collection_note := None;
     fields := [ mkField "id" "integer"; mkField "title" "string" ] |}.

(** A collection one of whose fields is called [_and]. *)
Definition rules : Collection :=
  {| collection := "rules"; primary := "id"; singleton := false;
     collection_note := None;
     fields := [ mkField "id" "integer"; mkField "_and" "string" ] |}.

Definition posts_author : Relation :=
  {| many_collection := "posts"; many_field := "author";
     one_collection := Some "authors"; one_field := Some "posts";
     one_collection_field := None; one_allowed_collections := None |}.

Definition sections_item : Relation :=
  {| many_collection := "sections"; many_field := "item";
     one_collection := None; one_field := None;
     one_collection_field := Some "collection";
     one_allowed_collections := Some ["posts"; "pages"] |}.

Definition blog : SchemaOverview :=
  {| collections :=
       [ ("authors", authors); ("posts", posts); ("pages", pages);
         ("sections", sections); ("settings", settings); ("rules", rules) ];
     relations := [ posts_author; sections_item ] |}.

Definition utils : SchemaUtils :=
  {| getGraphQLType := fun kind =>
       if String.eqb kind "integer" then GraphQLInt
       else if String.eqb kind "boolean" then GraphQLBoolean
       else GraphQLString;
     getRelationType := classifyRelation |}.

(** A sanitizer that turns a [limit] given as digits into a number and
    keeps every other option as it is. *)
Definition sanitize_option (option : string * JSValue) : string * JSValue :=
  match option with
  | ("limit", JString s) =>
      match digits_value s 0 with
      | Some n => ("limit", JNumber (Z.of_nat n))
      | None => option
      end
  | _ => option
  end.

(** A validator that accepts a document when every root selection of every
    operation is a field of the query type, and that refuses a query type
    without fields. *)
Definition unknown_root_fields (schema : GraphQLSchema) (document : Document)
  : Outcome (list Exception) :=
  match schema.(query_fields) with
  | [] => Throw (Error "Type Query must define one or more fields.")
  | _ :: _ =>
      Return
        (flat_map
           (fun operation =>
              flat_map
                (fun selection =>
                   match selection with
                   | FieldNode name _ _ =>
                       if js_has schema.(query_fields) name then []
                       else [GraphQLError ("Cannot query field " +++ name)]
                   | _ => []
                   end)
                operation.(operation_selections))
           document)
  end.

(** The name of the object type below the lists of an output type. *)
Fixpoint named_type (t : OutputType) : option string :=
  match t with
  | OutObject name => Some name
  | OutList ofType => named_type ofType
  | _ => None
  end.

(** A constructor that runs the thunk of the type of every root field. *)
Definition root_thunks (queryBase : GraphQLSchema) : list ConstructionStep :=
  flat_map (fun section =>
              match named_type section.(section_type) with
              | Some name => [ RunThunk name ]
              | None => []
              end)
    (Object_values queryBase.(query_fields)).

(** An engine that resolves the root fields of the first operation, one
    after the other, with one context object for all of them. *)
Definition resolve_roots
    (resolver : GraphQLResolveInfo -> JSObj JSValue -> M (JSValue * JSObj JSValue))
    (schema : GraphQLSchema) (document : Document) (contextValue : JSObj JSValue)
    (variables : JSObj JSValue) (operationName : option string) : M ExecutionResult :=
  match document with
  | [] => ret {| data := JNull; errors := Some [GraphQLError "Must provide an operation."] |}
  | operation :: _ =>
      resolved <-
        foldM (fun '(props, context) selection =>
                 match selection with
                 | FieldNode name _ _ =>
                     resolved <-
                       resolver {| fieldName := name;
                                   fieldNodes := [selection];
                                   variableValues := variables;
                                   path := MkPath None (KeyString name) |} context ;;
                     ret (js_set props name (fst resolved), snd resolved)
                 | _ => ret (props, context)
                 end)
          operation.(operation_selections) ([], contextValue) ;;
      ret {| data := JObject (fst resolved); errors := None |}
  end.

(** A response in which the first section points at a page, and the path
    of its [item] field: [sections], [0], [item]. *)
Definition sections_data : JSValue :=
  JArray [ JObject [ ("id", JNumber 1); ("collection", JString "pages");
                     ("item", JObject [ ("id", JNumber 7) ]) ] ].

Definition item_path : Path :=
  MkPath (Some (MkPath (Some (MkPath None (KeyString "sections"))) (KeyNumber 0)))
    (KeyString "item").

Definition collaborators : Collaborators :=
  {| sanitizeQuery := fun args _ => map sanitize_option args;
     reduceSchema := fun schema _ => schema;
     knex_first := fun collection =>
       if String.eqb collection "settings" then Some true
       else if String.eqb collection "posts" then Some false
       else None;
     systemCollectionRows :=
       [ {| meta_collection := "directus_settings"; meta_singleton := true |};
         {| meta_collection := "directus_users"; meta_singleton := false |} ];
     service_answer := fun call =>
       match call.(call_service), call.(call_operation) with
       | _, readSingleton => Return (JObject [])
       | ItemsService name, readByQuery =>
           if String.eqb name "sections" then Return sections_data else Return (JArray [])
       | _, readByQuery => Return (JArray [])
       end;
     schema_construction := root_thunks;
     validate := unknown_root_fields;
     graphql_execute := resolve_roots;
     formatError := fun e => e |}.

Definition service : GraphQLService :=
  {| accountability := Some {| role := None; admin := Some true |};
     schema := blog |}.

Definition world0 : World := {| warnings := []; calls := [] |}.

(** The selection [{ a { b c } }]. *)
Definition selection_a_b_c : list SelectionNode :=
  [ FieldNode "a" [] (Some [ FieldNode "b" [] None; FieldNode "c" [] None ]) ].


(** A response to [{ posts { section { item } } }] in which the section of
    the first post points at a page, and the path of that [item]: [posts],
    [0], [section], [item]. *)
Definition posts_data : JSValue :=
  JArray [ JObject [ ("id", JNumber 1);
                     ("section", JObject [ ("collection", JString "pages");
                                           ("item", JObject [ ("id", JNumber 7) ]) ]) ] ].

Definition nested_item_path : Path :=
  MkPath
    (Some (MkPath (Some (MkPath (Some (MkPath None (KeyString "posts"))) (KeyNumber 0)))
             (KeyString "section")))
    (KeyString "item").

(** The selection [{ sections { collection item { ... on pages { id } } } }]
    as the engine hands it to the resolver of the root field. *)
Definition sections_info : GraphQLResolveInfo :=
  {| fieldName := "sections";
     fieldNodes :=
       [ FieldNode "sections" []
           (Some [ FieldNode "collection" [] None;
                   FieldNode "item" []
                     (Some [ InlineFragment (Some "pages") [ FieldNode "id" [] None ] ]) ]) ];
     variableValues := [];
     path := MkPath None (KeyString "sections") |}.

(** A collection without fields, a system collection, and a schema that
    has both beside the collection of posts. *)
Definition drafts : Collection :=
  {| collection := "drafts"; primary := "id"; singleton := false;
     collection_note := None; fields := [] |}.

Definition directus_users : Collection :=
  {| collection := "directus_users"; primary := "id"; singleton := false;
     collection_note := None;
     fields := [ mkField "id" "string"; mkField "email" "string" ] |}.

Definition site : SchemaOverview :=
  {| collections :=
       [ ("posts", posts); ("drafts", drafts); ("directus_users", directus_users);
         ("settings", settings) ];
     relations := [] |}.

(** What the engine hands to the resolver of the root field [users] for
    the selection [{ users { email } }]. *)
Definition users_info : GraphQLResolveInfo :=
  {| fieldName := "users";
     fieldNodes := [ FieldNode "users" [] (Some [ FieldNode "email" [] None ]) ];
     variableValues := [];
     path := MkPath None (KeyString "users") |}.

End Example.

(* ================================================================== *)
(** * Properties *)

Unset Implicit Arguments.

(** ** Objects *)

Section ObjectFacts.
Context {V : Type}.
Implicit Types (o : JSObj V) (k : string) (v : V).

Lemma js_get_set_eq o k v : js_get (js_set o k v) k = Some v.
Proof.
  induction o as [|[k' v'] o IH]; simpl.
  - now rewrite String.eqb_refl.
  - destruct (String.eqb k' k) eqn:E; simpl; rewrite E; [reflexivity | exact IH].
Qed.

Lemma js_get_set_neq o k k' v : k <> k' -> js_get (js_set o k v) k' = js_get o k'.
Proof.
  intros Hne. induction o as [|[k0 v0] o IH]; simpl.
  - destruct (String.eqb k k') eqn:E; [apply String.eqb_eq in E; contradiction | reflexivity].
  - destruct (String.eqb k0 k) eqn:E; simpl.
    + apply String.eqb_eq in E; subst k0.
      destruct (String.eqb k k') eqn:E'; [apply String.eqb_eq in E'; contradiction | reflexivity].
    + now rewrite IH.
Qed.

Lemma js_set_keys o k v k' :
  In k' (Object_keys (js_set o k v)) <-> k' = k \/ In k' (Object_keys o).
Proof.
  unfold Object_keys. induction o as [|[k0 v0] o IH]; simpl.
  - intuition.
  - destruct (String.eqb k0 k) eqn:E; simpl.
    + apply String.eqb_eq in E; subst k0. intuition.
    + rewrite IH. intuition.
Qed.

Lemma js_get_keys o k : js_get o k <> None <-> In k (Object_keys o).
Proof.
  unfold Object_keys. induction o as [|[k0 v0] o IH]; simpl.
  - intuition.
  - destruct (String.eqb k0 k) eqn:E.
    + apply String.eqb_eq in E; subst k0. split; [now left | discriminate].
    + rewrite IH. apply String.eqb_neq in E. intuition.
Qed.

Lemma js_has_set o k v k' : js_has (js_set o k v) k' = String.eqb k k' || js_has o k'.
Proof.
  unfold js_has. destruct (String.eqb k k') eqn:E.
  - apply String.eqb_eq in E; subst k'. now rewrite js_get_set_eq.
  - apply String.eqb_neq in E. now rewrite js_get_set_neq.
Qed.

End ObjectFacts.

Lemma js_set_keys_present (V : Type) (o : JSObj V) (k : string) (v : V) :
  In k (Object_keys o) -> Object_keys (js_set o k v) = Object_keys o.
Proof.
  unfold Object_keys. induction o as [|[k0 v0] o IH]; cbn [js_set map fst In].
  - contradiction.
  - intros Hin. destruct (String.eqb k0 k) eqn:E; cbn [map fst]; [reflexivity|].
    f_equal. apply IH. destruct Hin as [-> | Hin]; [|exact Hin].
    rewrite String.eqb_refl in E. discriminate.
Qed.

Lemma js_set_keys_fresh (V : Type) (o : JSObj V) (k : string) (v : V) :
  ~ In k (Object_keys o) -> Object_keys (js_set o k v) = Object_keys o ++ [k].
Proof.
  unfold Object_keys. induction o as [|[k0 v0] o IH]; cbn [js_set map fst In app].
  - reflexivity.
  - intros Hnotin. destruct (String.eqb k0 k) eqn:E.
    + apply String.eqb_eq in E. subst. exfalso. apply Hnotin. now left.
    + cbn [map fst]. f_equal. apply IH. tauto.
Qed.

Lemma js_set_keys_grow (V : Type) (o : JSObj V) (k : string) (v : V) :
  exists extra,
    Object_keys (js_set o k v) = Object_keys o ++ extra
    /\ forall k', In k' extra -> k' = k.
Proof.
  destruct (in_dec string_dec k (Object_keys o)) as [Hin | Hnotin].
  - exists []. rewrite js_set_keys_present by assumption.
    rewrite app_nil_r. split; [reflexivity | contradiction].
  - exists [k]. rewrite js_set_keys_fresh by assumption.
    split; [reflexivity|]. intros k' [<- | []]. reflexivity.
Qed.

Lemma js_set_NoDup (V : Type) (o : JSObj V) (k : string) (v : V) :
  NoDup (Object_keys o) -> NoDup (Object_keys (js_set o k v)).
Proof.
  intros Hnd. destruct (in_dec string_dec k (Object_keys o)) as [Hin | Hnotin].
  - now rewrite js_set_keys_present.
  - rewrite js_set_keys_fresh by assumption. apply NoDup_app; auto.
    + repeat constructor. intros [].
    + intros x Hx [<- | []]. contradiction.
Qed.

(* ================================================================== *)
(** ** Dispatch to a service *)

(** Whatever clause control enters at, it runs on to [default]. *)
Lemma getData_service_generic (collection : string) :
  getData_service collection = Some (ItemsService collection).
Proof.
  unfold getData_service, run_switch, switch_clauses. cbn -[String.eqb].
  repeat match goal with
         | |- context [String.eqb ?a collection] =>
             destruct (String.eqb a collection); [reflexivity|]
         end.
  reflexivity.
Qed.

(** C1.  [getData] enters its [switch] at the clause of
    [directus_users], whose statement builds the users service, and then
    runs every clause below it: the service the query is handed to is the
    generic item service of that name, not the users service. *)
Theorem getData_users_reach_generic_service :
  clauses_from_case "directus_users" (switch_clauses "directus_users")
    = Some [ (Some "directus_users", UsersService);
             (Some "directus_webhooks", WebhooksService);
             (None, ItemsService "directus_users") ]
  /\ getData_service "directus_users" = Some (ItemsService "directus_users")
  /\ getData_service "directus_users" <> Some UsersService.
Proof.
  split; [reflexivity|]. rewrite getData_service_generic. split; [reflexivity | discriminate].
Qed.

(* ================================================================== *)
(** ** The read path *)

Section ReadPath.
Context {utils : SchemaUtils} {ext : Collaborators}.
Variable this : GraphQLService.

(** C5.  Whether [getData] reads a singleton is decided by the row the
    database has for the collection and, only when the database has none,
    by the row of the static table of system collections.  A row of the
    database flagged singleton gives one [readSingleton], a row that is
    not flagged gives one [readByQuery], whatever the static table says;
    without a row in the database the first row of the static table for
    the collection decides in the same way; with no row at all it is
    [readByQuery].  In every case the one read is handed to the service
    with a query that lists exactly the planned fields and with the
    stripping of fields that were not requested off. *)
Theorem getData_read_path (collection : string) (selections : list SelectionNode)
    (argsArray : list ArgumentNode) (variableValues : JSObj JSValue)
    (fields : list string) (query : Query) (w : World) :
  parseFields this variableValues selections None
    (sanitizeQuery (parseArgs argsArray variableValues) this.(accountability))
    = Return (fields, query) ->
  let read operation :=
    w.(calls) ++
    [ {| call_service := ItemsService collection;
         call_operation := operation;
         call_query := js_set query "fields" (JArray (map JString fields));
         call_stripNonRequested := false |} ] in
  let handed :=
    (snd (getData this collection selections argsArray variableValues w)).(calls) in
  let static :=
    find (fun meta => String.eqb meta.(meta_collection) collection) systemCollectionRows in
  (knex_first collection = Some true -> handed = read readSingleton)
  /\ (knex_first collection = Some false -> handed = read readByQuery)
  /\ (forall meta,
        knex_first collection = None -> static = Some meta ->
        meta.(meta_singleton) = true -> handed = read readSingleton)
  /\ (forall meta,
        knex_first collection = None -> static = Some meta ->
        meta.(meta_singleton) = false -> handed = read readByQuery)
  /\ (knex_first collection = None -> static = None -> handed = read readByQuery).
Proof.
  intros Hplan read handed static. subst read handed static.
  unfold getData. rewrite Hplan, getData_service_generic.
  unfold collectionInfo, optional_singleton.
  repeat split.
  - intros ->. reflexivity.
  - intros ->. reflexivity.
  - intros meta -> -> Hflag. cbn [info_singleton]. rewrite Hflag. reflexivity.
  - intros meta -> -> Hflag. cbn [info_singleton]. rewrite Hflag. reflexivity.
  - intros -> ->. reflexivity.
Qed.

End ReadPath.

(* ================================================================== *)
(** ** Loops that fill an object, one field after the other *)

Lemma existsb_eqb_In (name : string) (names : list string) :
  existsb (String.eqb name) names = true <-> In name names.
Proof.
  rewrite existsb_exists. split.
  - intros [x [Hin Heq]]. apply String.eqb_eq in Heq. now subst.
  - intros Hin. exists name. split; [assumption | apply String.eqb_refl].
Qed.

Lemma distinct_NoDup (names : list string) : distinct names = true -> NoDup names.
Proof.
  induction names as [|name rest IH]; simpl; intros H.
  - constructor.
  - apply andb_true_iff in H. destruct H as [Hhead Hrest].
    constructor; [|now apply IH].
    intros Hin. apply existsb_eqb_In in Hin. rewrite Hin in Hhead. discriminate.
Qed.

Section FillLoop.
Context {T : Type} (step : JSObj T -> Field -> JSObj T).

Lemma fill_keeps (k : string) (l : list Field) (acc : JSObj T) :
  (forall f, In f l -> keeps step k f) ->
  js_get (fold_left step l acc) k = js_get acc k.
Proof.
  revert acc. induction l as [|f l IH]; intros acc Hkeep; simpl.
  - reflexivity.
  - rewrite IH.
    + apply Hkeep. now left.
    + intros g Hg. apply Hkeep. now right.
Qed.

(** With distinct names, the entry of a field is the one its own turn wrote. *)
Lemma fill_written (l : list Field) (acc : JSObj T) (f : Field) (t : T) :
  (forall g k, k <> g.(field) -> keeps step k g) ->
  NoDup (map field l) ->
  In f l ->
  (forall acc', js_get (step acc' f) f.(field) = Some t) ->
  js_get (fold_left step l acc) f.(field) = Some t.
Proof.
  intros Hframe. revert acc. induction l as [|g l IH]; intros acc Hnd Hin Hw; simpl.
  - contradiction.
  - inversion Hnd as [|? ? Hnotin Hnd']; subst. destruct Hin as [-> | Hin].
    + rewrite fill_keeps; [apply Hw|].
      intros g Hg. apply Hframe. intros Heq. apply Hnotin. rewrite Heq. now apply in_map.
    + now apply IH.
Qed.

(** With distinct names, a field whose turn writes nothing leaves the
    entry of its name as the object had it at the start. *)
Lemma fill_untouched (l : list Field) (acc : JSObj T) (f : Field) :
  (forall g k, k <> g.(field) -> keeps step k g) ->
  NoDup (map field l) ->
  In f l ->
  keeps step f.(field) f ->
  js_get (fold_left step l acc) f.(field) = js_get acc f.(field).
Proof.
  intros Hframe Hnd Hin Hkeep. apply fill_keeps. intros g Hg.
  destruct (string_dec g.(field) f.(field)) as [Heq | Hne].
  - assert (g = f) as ->; [|assumption].
    clear Hkeep Hframe acc. induction l as [|h l IH]; [contradiction|].
    inversion Hnd as [|? ? Hnotin Hnd']; subst.
    destruct Hg as [-> | Hg], Hin as [-> | Hin]; try reflexivity.
    + exfalso. apply Hnotin. rewrite Heq. now apply in_map.
    + exfalso. apply Hnotin. rewrite <- Heq. now apply in_map.
    + now apply IH.
  - apply Hframe. congruence.
Qed.

(** Every key of the result was there at the start or is the name of a
    field whose turn wrote it. *)
Lemma fill_keys (P : Field -> Prop) (l : list Field) (acc : JSObj T) (k : string) :
  (forall acc' f,
      step acc' f = acc' \/ (P f /\ exists t, step acc' f = js_set acc' f.(field) t)) ->
  In k (Object_keys (fold_left step l acc)) ->
  In k (Object_keys acc) \/ exists f, In f l /\ P f /\ f.(field) = k.
Proof.
  intros Hcases. revert acc. induction l as [|f l IH]; intros acc Hin; simpl in *.
  - now left.
  - apply IH in Hin. destruct Hin as [Hin | [g [Hg [HP Hk]]]].
    + destruct (Hcases acc f) as [Hsame | [HP [t Hset]]].
      * rewrite Hsame in Hin. now left.
      * rewrite Hset in Hin. apply js_set_keys in Hin. destruct Hin as [-> | Hin].
        -- right. exists f. auto.
        -- now left.
    + right. exists g. auto.
Qed.

End FillLoop.

(* ================================================================== *)
(** ** Filter-input types *)

Lemma in_entries_has (V : Type) (o : JSObj V) (k : string) (v : V) :
  In (k, v) o -> js_has o k = true.
Proof.
  intros Hin. unfold js_has.
  destruct (js_get o k) eqn:E; [reflexivity|].
  exfalso. apply (proj2 (js_get_keys o k)); [|assumption].
  unfold Object_keys. apply in_map_iff. now exists (k, v).
Qed.

Lemma table_keeps (V W : Type) (make : string -> V -> W) (l : list (string * V))
    (acc : JSObj W) (k : string) :
  ~ In k (map fst l) ->
  js_get (fold_left (fun table '(k', v') => js_set table k' (make k' v')) l acc) k
    = js_get acc k.
Proof.
  revert acc. induction l as [|[k0 v0] l IH]; intros acc Hnotin; simpl.
  - reflexivity.
  - rewrite IH.
    + apply js_get_set_neq. intros ->. apply Hnotin. now left.
    + intros Hin. apply Hnotin. now right.
Qed.

(** With distinct keys, a table filled entry by entry holds, under each
    key, what was made for that entry. *)
Lemma table_lookup (V W : Type) (make : string -> V -> W) (l : list (string * V))
    (acc : JSObj W) (k : string) (v : V) :
  NoDup (map fst l) ->
  In (k, v) l ->
  js_get (fold_left (fun table '(k', v') => js_set table k' (make k' v')) l acc) k
    = Some (make k v).
Proof.
  revert acc. induction l as [|[k0 v0] l IH]; intros acc Hnd Hin; simpl.
  - contradiction.
  - inversion Hnd as [|? ? Hnotin Hnd']; subst. destruct Hin as [Heq | Hin].
    + inversion Heq; subst. rewrite table_keeps by assumption. apply js_get_set_eq.
    + now apply IH.
Qed.

Section FilterFacts.
Context {utils : SchemaUtils}.
Variables (schema : SchemaOverview) (collectionName : string) (c : Collection).

Lemma filterFields_step_frame (g : Field) (k : string) :
  k <> g.(field) -> keeps (filterFields_step schema collectionName c) k g.
Proof.
  intros Hne acc. unfold filterFields_step.
  destruct (startsWith g.(field) "__"); [reflexivity|].
  destruct (relationForField _ _ _) as [relation|].
  - destruct (getRelationType _ _ _) as [[| |]|]; try reflexivity;
      apply js_get_set_neq; congruence.
  - apply js_get_set_neq; congruence.
Qed.

Lemma filterFields_step_cases (acc : JSObj InputType) (f : Field) :
  filterFields_step schema collectionName c acc f = acc
  \/ (startsWith f.(field) "__" = false
      /\ exists t, filterFields_step schema collectionName c acc f = js_set acc f.(field) t).
Proof.
  unfold filterFields_step.
  destruct (startsWith f.(field) "__"); [now left|].
  destruct (relationForField _ _ _) as [relation|].
  - destruct (getRelationType _ _ _) as [[| |]|]; eauto.
  - eauto.
Qed.

(** The member a field leaves in the filter type, when names are distinct. *)
Lemma filterFields_member (f : Field) (t : InputType) :
  distinct (field_names c) = true ->
  In f (Object_values c.(fields)) ->
  (forall acc, js_get (filterFields_step schema collectionName c acc f) f.(field) = Some t) ->
  js_get (filterFields schema collectionName c) f.(field) = Some t.
Proof.
  intros Hd Hin Hw. unfold filterFields.
  apply fill_written; auto using filterFields_step_frame.
  now apply distinct_NoDup.
Qed.

Lemma filterFields_no_member (f : Field) :
  distinct (field_names c) = true ->
  In f (Object_values c.(fields)) ->
  keeps (filterFields_step schema collectionName c) f.(field) f ->
  f.(field) <> "_and" -> f.(field) <> "_or" ->
  js_get (filterFields schema collectionName c) f.(field) = None.
Proof.
  intros Hd Hin Hk Hand Hor. unfold filterFields.
  rewrite fill_untouched; auto using filterFields_step_frame.
  - cbn [js_get].
    destruct (String.eqb "_and" f.(field)) eqn:E1;
      [apply String.eqb_eq in E1; congruence|].
    destruct (String.eqb "_or" f.(field)) eqn:E2;
      [apply String.eqb_eq in E2; congruence|].
    reflexivity.
  - now apply distinct_NoDup.
Qed.

(** The boolean members are those the thunk starts from, as long as no
    field takes their name. *)
Lemma filterFields_boolean_member (k : string) :
  ~ In k (field_names c) ->
  js_get (filterFields schema collectionName c) k
  = js_get [ ("_and", InList (filterTypes_ref schema collectionName));
             ("_or", InList (filterTypes_ref schema collectionName)) ] k.
Proof.
  intros Hk. unfold filterFields. apply fill_keeps.
  intros f Hf. apply filterFields_step_frame.
  intros ->. apply Hk. unfold field_names. now apply in_map.
Qed.

(** No member of a filter type has a reserved name. *)
Lemma filterFields_keys (k : string) :
  In k (Object_keys (filterFields schema collectionName c)) ->
  startsWith k "__" = false.
Proof.
  intros Hin. unfold filterFields in Hin.
  apply fill_keys with (P := fun f => startsWith f.(field) "__" = false) in Hin.
  - destruct Hin as [Hin | [f [_ [HP <-]]]]; [|assumption].
    simpl in Hin. destruct Hin as [<- | [<- | []]]; reflexivity.
  - intros acc f. apply filterFields_step_cases.
Qed.

End FilterFacts.

Section FilterTypes.
Context {utils : SchemaUtils}.

Lemma well_formed_keys (schema : SchemaOverview) :
  well_formed schema = true -> NoDup (map fst schema.(collections)).
Proof.
  unfold well_formed. intros H. apply andb_true_iff in H.
  apply distinct_NoDup. exact (proj1 H).
Qed.

Lemma well_formed_fields (schema : SchemaOverview) (name : string) (c : Collection) :
  well_formed schema = true -> In (name, c) schema.(collections) ->
  distinct (field_names c) = true.
Proof.
  unfold well_formed. intros H Hin. apply andb_true_iff in H. destruct H as [_ H].
  rewrite forallb_forall in H. apply H. unfold Object_values.
  apply in_map_iff. now exists (name, c).
Qed.

(** [filterTypes] has an entry exactly for the keys of [collections]. *)
Lemma getFilterArgs_has (schema : SchemaOverview) (name : string) :
  js_has (getFilterArgs schema) name = js_has schema.(collections) name.
Proof.
  unfold getFilterArgs, Object_entries.
  assert (forall (l : JSObj Collection) (acc : JSObj GraphQLInputObjectType),
            js_has
              (fold_left
                 (fun filterTypes '(collectionName, c) =>
                    js_set filterTypes collectionName
                      {| input_name := collectionName +++ "_filter";
                         input_fields := filterFields schema collectionName c |})
                 l acc) name
            = js_has acc name || js_has l name) as Hfold.
  { induction l as [|[k c] l IH]; intros acc; cbn [fold_left].
    - unfold js_has at 3. cbn [js_get]. now rewrite orb_false_r.
    - rewrite IH, js_has_set. unfold js_has at 4. cbn [js_get].
      destruct (String.eqb k name); [now rewrite orb_true_r|].
      now rewrite orb_false_l. }
  rewrite Hfold. reflexivity.
Qed.

(** The filter type [getFilterArgs] stores for an entry of [collections]. *)
Lemma getFilterArgs_lookup (schema : SchemaOverview) (name : string) (c : Collection) :
  well_formed schema = true ->
  In (name, c) schema.(collections) ->
  js_get (getFilterArgs schema) name
  = Some {| input_name := name +++ "_filter";
            input_fields := filterFields schema name c |}.
Proof.
  intros Hwf Hin. unfold getFilterArgs, Object_entries.
  apply (table_lookup _ _
           (fun collectionName c =>
              {| input_name := collectionName +++ "_filter";
                 input_fields := filterFields schema collectionName c |}));
    auto using well_formed_keys.
Qed.

(** C2, as the code has it.  In the filter type of a collection, a
    relation field classified many-to-one has a member typed by the filter
    type of the relation's one-side collection, a relation field
    classified one-to-many has a member typed by the filter type of the
    relation's many-side collection, and a relation field classified
    many-to-any has no member. *)
Theorem filter_members_of_relation_fields (schema : SchemaOverview) (name : string)
    (c : Collection) (f : Field) (relation : Relation) :
  well_formed schema = true ->
  In (name, c) schema.(collections) ->
  In f (Object_values c.(fields)) ->
  startsWith f.(field) "__" = false ->
  relationForField schema.(relations) name f.(field) = Some relation ->
  exists filterType,
    js_get (getFilterArgs schema) name = Some filterType
    /\ filterType.(input_name) = name +++ "_filter"
    /\ (getRelationType relation name f.(field) = Some m2o ->
        js_get filterType.(input_fields) f.(field)
        = Some (filterTypes_ref schema (key_of relation.(one_collection))))
    /\ (getRelationType relation name f.(field) = Some o2m ->
        js_get filterType.(input_fields) f.(field)
        = Some (filterTypes_ref schema relation.(many_collection)))
    /\ (getRelationType relation name f.(field) = Some m2a ->
        f.(field) <> "_and" -> f.(field) <> "_or" ->
        js_get filterType.(input_fields) f.(field) = None).
Proof.
  intros Hwf Hc Hf Hres Hrel.
  pose proof (well_formed_fields _ _ _ Hwf Hc) as Hd.
  eexists. split; [exact (getFilterArgs_lookup _ _ _ Hwf Hc)|]. simpl.
  split; [reflexivity|]. split; [|split].
  - intros Hm2o. apply filterFields_member; auto.
    intros acc. unfold filterFields_step. rewrite Hres, Hrel, Hm2o. apply js_get_set_eq.
  - intros Ho2m. apply filterFields_member; auto.
    intros acc. unfold filterFields_step. rewrite Hres, Hrel, Ho2m. apply js_get_set_eq.
  - intros Hm2a Hand Hor. apply filterFields_no_member; auto.
    intros acc. unfold filterFields_step. now rewrite Hres, Hrel, Hm2a.
Qed.

(** C8, as the code has it.  In the filter type of a collection, every
    exposed field without a relation has an operator-set member: the
    fourteen operators, in this order, the two set-membership operators
    over a list of the field's scalar type, the four null and empty checks
    over a boolean, all others over the field's scalar type.  The members
    [_and] and [_or] take a list of the collection's own filter type, each
    provided no field of the collection bears its name. *)
Theorem filter_operators_and_composition (schema : SchemaOverview) (name : string)
    (c : Collection) :
  well_formed schema = true ->
  In (name, c) schema.(collections) ->
  exists filterType,
    js_get (getFilterArgs schema) name = Some filterType
    /\ (forall f,
          In f (Object_values c.(fields)) ->
          startsWith f.(field) "__" = false ->
          relationForField schema.(relations) name f.(field) = None ->
          let scalar := InScalar (fieldType c f) in
          let boolean := InScalar GraphQLBoolean in
          js_get filterType.(input_fields) f.(field)
          = Some (InOperators (name +++ "_" +++ f.(field) +++ "_filter_operators")
                    [ ("_eq", scalar); ("_neq", scalar);
                      ("_contains", scalar); ("_ncontains", scalar);
                      ("_in", InList scalar); ("_nin", InList scalar);
                      ("_gt", scalar); ("_gte", scalar);
                      ("_lt", scalar); ("_lte", scalar);
                      ("_null", boolean); ("_nnull", boolean);
                      ("_empty", boolean); ("_nempty", boolean) ]))
    /\ (~ In "_and" (field_names c) ->
        js_get filterType.(input_fields) "_and" = Some (InList (InFilter name)))
    /\ (~ In "_or" (field_names c) ->
        js_get filterType.(input_fields) "_or" = Some (InList (InFilter name))).
Proof.
  intros Hwf Hc.
  pose proof (well_formed_fields _ _ _ Hwf Hc) as Hd.
  assert (filterTypes_ref schema name = InFilter name) as Href.
  { unfold filterTypes_ref. now rewrite (in_entries_has _ _ _ _ Hc). }
  eexists. split; [exact (getFilterArgs_lookup _ _ _ Hwf Hc)|]. simpl. split; [|split].
  - intros f Hf Hres Hrel. cbv zeta.
    apply (filterFields_member schema name c f); auto.
    intros acc. unfold filterFields_step. rewrite Hres, Hrel. apply js_get_set_eq.
  - intros Hand. rewrite filterFields_boolean_member by assumption.
    rewrite Href. reflexivity.
  - intros Hor. rewrite filterFields_boolean_member by assumption.
    rewrite Href. reflexivity.
Qed.

End FilterTypes.

(** C2, refuted as stated.  In the example schema the field [posts] of
    [authors] is the one side of the relation [posts.author]: it is
    classified one-to-many, and the filter type of [authors] has a member
    [posts], typed by the filter type of [posts]. *)
Lemma one_to_many_field_has_filter_member :
  In ("posts", {| field := "posts"; type := "alias"; note := None |})
    Example.authors.(fields)
  /\ relationForField Example.blog.(relations) "authors" "posts" = Some Example.posts_author
  /\ getRelationType (SchemaUtils := Example.utils) Example.posts_author "authors" "posts"
     = Some o2m
  /\ exists filterType,
       js_get (getFilterArgs (utils := Example.utils) Example.blog) "authors" = Some filterType
       /\ js_get filterType.(input_fields) "posts" = Some (InFilter "posts").
Proof.
  split; [simpl; auto|]. split; [reflexivity|]. split; [reflexivity|].
  eexists. split; reflexivity.
Qed.

(** C8, refuted as stated.  The collection [rules] of the example schema
    has a scalar field called [_and]; the member [_and] of its filter type
    is the operator set of that field, not a list of the filter type. *)
Lemma field_named_and_replaces_composition :
  exists filterType,
    js_get (getFilterArgs (utils := Example.utils) Example.blog) "rules" = Some filterType
    /\ js_get filterType.(input_fields) "_and"
       = Some (filter_operators (utils := Example.utils) "rules" Example.rules
                 {| field := "_and"; type := "string"; note := None |})
    /\ js_get filterType.(input_fields) "_and" <> Some (InList (InFilter "rules")).
Proof.
  eexists. split; [reflexivity|]. split; [reflexivity | discriminate].
Qed.

(* ================================================================== *)
(** ** Object types *)

Section ObjectTypeFacts.
Context {utils : SchemaUtils}.

(** Every entry of [graphqlSchema] holds the object type named by its key. *)
Lemma graphqlSchema_entry (schema : SchemaOverview) (k : string) (section : SchemaSection) :
  js_get (graphqlSchema schema) k = Some section ->
  section.(section_type) = OutObject k.
Proof.
  unfold graphqlSchema.
  assert (forall l acc,
            (forall k s, js_get acc k = Some s -> s.(section_type) = OutObject k) ->
            forall k s,
              js_get
                (fold_left
                   (fun graphqlSchema c =>
                      if Nat.eqb (List.length (Object_keys c.(fields))) 0 then graphqlSchema
                      else
                        js_set graphqlSchema c.(collection)
                          {| section_type := OutObject c.(collection);
                             section_args :=
                               shared_args ++
                               [ ("filter",
                                  {| arg_name := Some (c.(collection) +++ "_filter");
                                     arg_type := filterTypes_ref schema c.(collection) |}) ] |})
                   l acc) k = Some s ->
              s.(section_type) = OutObject k) as Hinv.
  { induction l as [|c l IH]; intros acc Hacc k' s; simpl; [apply Hacc|].
    apply IH. destruct (Nat.eqb _ 0); [exact Hacc|].
    intros k0 s0. destruct (string_dec c.(collection) k0) as [<- | Hne].
    - rewrite js_get_set_eq. intros [= <-]. reflexivity.
    - rewrite js_get_set_neq by assumption. apply Hacc. }
  apply Hinv. intros k0 s0 H. discriminate.
Qed.

Lemma graphqlSchema_type_run (schema : SchemaOverview) (name : string) (w : World)
    (t : OutputType) (w' : World) :
  graphqlSchema_type schema name w = (Return t, w') ->
  t = OutObject name /\ w' = w /\ js_has (graphqlSchema schema) name = true.
Proof.
  unfold graphqlSchema_type, js_has.
  destruct (js_get (graphqlSchema schema) name) as [section|] eqn:E; unfold ret, throw.
  - intros [= <- <-]. now rewrite (graphqlSchema_entry _ _ _ E).
  - discriminate.
Qed.

Lemma graphqlSchema_type_world (schema : SchemaOverview) (name : string) (w : World) :
  snd (graphqlSchema_type schema name w) = w.
Proof.
  unfold graphqlSchema_type.
  now destruct (js_get (graphqlSchema schema) name).
Qed.

Lemma graphqlSchema_types_run (schema : SchemaOverview) (names : list string) (w : World) :
  snd (mapM (graphqlSchema_type schema) names w) = w
  /\ forall types, fst (mapM (graphqlSchema_type schema) names w) = Return types ->
                   types = map OutObject names
                   /\ forallb (js_has (graphqlSchema schema)) names = true.
Proof.
  induction names as [|name names IH]; simpl.
  - unfold ret. simpl. split; [reflexivity|]. intros types [= <-]. now split.
  - unfold bind.
    destruct (graphqlSchema_type schema name w) as [[t|e] w1] eqn:E1.
    + apply graphqlSchema_type_run in E1. destruct E1 as [-> [-> Hhas]].
      destruct IH as [IHw IHt].
      destruct (mapM (graphqlSchema_type schema) names w) as [[ts|e] w2] eqn:E2;
        simpl in *; subst w2.
      * unfold ret. simpl. split; [reflexivity|]. intros types [= <-].
        destruct (IHt ts eq_refl) as [-> Hall]. rewrite Hhas, Hall. now split.
      * split; [reflexivity | discriminate].
    + pose proof (graphqlSchema_type_world schema name w) as Hw. rewrite E1 in Hw.
      simpl in *. subst w1. split; [reflexivity | discriminate].
Qed.

Variables (self schema : SchemaOverview) (c : Collection).

(** What the field of an object type is, by the relation found for it in
    [this.schema.relations] and its classification. *)
Lemma fieldsObject_assign_run (acc : JSObj FieldConfig) (f : Field) (w : World)
    (acc' : JSObj FieldConfig) (w' : World) :
  fieldsObject_assign self schema c acc f w = (Return acc', w') ->
  w' = w
  /\ match relationForField self.(relations) c.(collection) f.(field) with
     | None =>
         acc' = js_set acc f.(field)
                  {| config_type := OutScalar (fieldType c f);
                     config_args := None; description := None |}
     | Some relation =>
         match getRelationType relation c.(collection) f.(field) with
         | Some m2o =>
             acc' = js_set acc f.(field)
                      {| config_type := OutObject (key_of relation.(one_collection));
                         config_args := None; description := None |}
             /\ js_has (graphqlSchema schema) (key_of relation.(one_collection)) = true
         | Some o2m =>
             acc' = js_set acc f.(field)
                      {| config_type := OutList (OutObject relation.(many_collection));
                         config_args :=
                           Some (shared_args ++
                                 [ ("filter",
                                    {| arg_name := None;
                                       arg_type :=
                                         filterTypes_ref schema relation.(many_collection) |}) ]);
                         description := None |}
             /\ js_has (graphqlSchema schema) relation.(many_collection) = true
         | Some m2a =>
             exists allowed,
               relation.(one_allowed_collections) = Some allowed
               /\ acc' = js_set acc f.(field)
                           {| config_type :=
                                OutUnion (c.(collection) +++ "__" +++ f.(field))
                                  (map OutObject allowed) relation.(one_collection_field);
                              config_args := None; description := None |}
               /\ forallb (js_has (graphqlSchema schema)) allowed = true
         | None => acc' = acc
         end
     end.
Proof.
  unfold fieldsObject_assign.
  destruct (relationForField _ _ _) as [relation|].
  - destruct (getRelationType _ _ _) as [[| |]|].
    + unfold bind.
      destruct (graphqlSchema_type schema (key_of relation.(one_collection)) w)
        as [[t|e] w1] eqn:E; [|discriminate].
      apply graphqlSchema_type_run in E. destruct E as [-> [-> Hhas]].
      unfold ret. intros [= <- <-]. auto.
    + unfold bind.
      destruct (graphqlSchema_type schema relation.(many_collection) w)
        as [[t|e] w1] eqn:E; [|discriminate].
      apply graphqlSchema_type_run in E. destruct E as [-> [-> Hhas]].
      unfold ret. intros [= <- <-]. auto.
    + destruct relation.(one_allowed_collections) as [allowed|]; [|discriminate].
      unfold bind.
      destruct (graphqlSchema_types_run schema allowed w) as [Hw Ht].
      destruct (mapM (graphqlSchema_type schema) allowed w) as [[types|e] w1];
        [|discriminate].
      simpl in Hw. subst w1. destruct (Ht types eq_refl) as [-> Hall].
      unfold ret. intros [= <- <-]. split; [reflexivity|]. exists allowed. auto.
    + unfold ret. intros [= <- <-]. auto.
  - unfold ret. intros [= <- <-]. auto.
Qed.

(** One turn of the loop: a reserved field is skipped with a warning; any
    other field leaves, under its name, a configuration that carries its
    note, and changes nothing else. *)
Lemma fieldsObject_step_run (acc : JSObj FieldConfig) (f : Field) (w : World)
    (acc' : JSObj FieldConfig) (w' : World) :
  fieldsObject_step self schema c acc f w = (Return acc', w') ->
  (startsWith f.(field) "__" = true
   /\ acc' = acc
   /\ w' = {| warnings := w.(warnings) ++ [reserved_field_warning c f];
              calls := w.(calls) |})
  \/ (startsWith f.(field) "__" = false
      /\ w' = w
      /\ exists assigned config,
           fieldsObject_assign self schema c acc f w = (Return assigned, w)
           /\ js_get assigned f.(field) = Some config
           /\ acc' = js_set assigned f.(field)
                       {| config_type := config.(config_type);
                          config_args := config.(config_args);
                          description := f.(note) |}).
Proof.
  unfold fieldsObject_step.
  destruct (startsWith f.(field) "__").
  - unfold bind, logger_warn, ret. intros [= <- <-]. now left.
  - unfold bind.
    destruct (fieldsObject_assign self schema c acc f w) as [[assigned|e] w1] eqn:E;
      [|discriminate].
    pose proof (fieldsObject_assign_run _ _ _ _ _ E) as [-> _].
    destruct (js_get assigned f.(field)) as [config|] eqn:G; [|discriminate].
    unfold ret. intros [= <- <-]. right. split; [reflexivity|]. split; [reflexivity|].
    now exists assigned, config.
Qed.

Lemma fieldsObject_assign_frame (acc : JSObj FieldConfig) (f : Field) (w : World)
    (acc' : JSObj FieldConfig) (w' : World) (k : string) :
  fieldsObject_assign self schema c acc f w = (Return acc', w') ->
  k <> f.(field) -> js_get acc' k = js_get acc k.
Proof.
  intros H Hne. apply fieldsObject_assign_run in H. destruct H as [_ H].
  destruct (relationForField _ _ _) as [relation|].
  - destruct (getRelationType _ _ _) as [[| |]|].
    + destruct H as [-> _]. apply js_get_set_neq. congruence.
    + destruct H as [-> _]. apply js_get_set_neq. congruence.
    + destruct H as [allowed [_ [-> _]]]. apply js_get_set_neq. congruence.
    + now subst.
  - subst. apply js_get_set_neq. congruence.
Qed.

Lemma fieldsObject_step_frame (acc : JSObj FieldConfig) (f : Field) (w : World)
    (acc' : JSObj FieldConfig) (w' : World) (k : string) :
  fieldsObject_step self schema c acc f w = (Return acc', w') ->
  k <> f.(field) -> js_get acc' k = js_get acc k.
Proof.
  intros H Hne. apply fieldsObject_step_run in H.
  destruct H as [[_ [-> _]] | [_ [_ [assigned [config [Ha [_ ->]]]]]]]; [reflexivity|].
  rewrite js_get_set_neq by congruence.
  eapply fieldsObject_assign_frame; eassumption.
Qed.

(** The loop as a whole. *)
Lemma objectFields_loop_frame (l : list Field) (acc : JSObj FieldConfig) (w : World)
    (res : JSObj FieldConfig) (w' : World) (k : string) :
  foldM (fieldsObject_step self schema c) l acc w = (Return res, w') ->
  ~ In k (map field l) ->
  js_get res k = js_get acc k.
Proof.
  revert acc w. induction l as [|f l IH]; intros acc w; simpl.
  - unfold ret. now intros [= <- <-].
  - unfold bind.
    destruct (fieldsObject_step self schema c acc f w) as [[acc1|e] w1] eqn:E;
      [|discriminate].
    intros Hrun Hnotin. rewrite (IH _ _ Hrun) by tauto.
    eapply fieldsObject_step_frame; [eassumption|]. intros ->. apply Hnotin. now left.
Qed.

Lemma objectFields_loop_written (Q : FieldConfig -> Prop) (l : list Field)
    (acc : JSObj FieldConfig) (w : World) (res : JSObj FieldConfig) (w' : World)
    (f : Field) :
  NoDup (map field l) ->
  In f l ->
  (forall acc0 w0 acc1 w1,
      fieldsObject_step self schema c acc0 f w0 = (Return acc1, w1) ->
      exists config, js_get acc1 f.(field) = Some config /\ Q config) ->
  foldM (fieldsObject_step self schema c) l acc w = (Return res, w') ->
  exists config, js_get res f.(field) = Some config /\ Q config.
Proof.
  intros Hnd Hin Hstep. revert acc w Hnd Hin. induction l as [|g l IH];
    intros acc w Hnd Hin; simpl; [contradiction|].
  unfold bind.
  destruct (fieldsObject_step self schema c acc g w) as [[acc1|e] w1] eqn:E;
    [|discriminate].
  intros Hrun. inversion Hnd as [|? ? Hnotin Hnd']; subst.
  destruct Hin as [-> | Hin].
  - rewrite (objectFields_loop_frame _ _ _ _ _ _ Hrun Hnotin). eapply Hstep; eassumption.
  - eapply IH; eassumption.
Qed.

Lemma objectFields_loop_keys (l : list Field) (acc : JSObj FieldConfig) (w : World)
    (res : JSObj FieldConfig) (w' : World) (k : string) :
  foldM (fieldsObject_step self schema c) l acc w = (Return res, w') ->
  In k (Object_keys res) ->
  In k (Object_keys acc)
  \/ exists f, In f l /\ startsWith f.(field) "__" = false /\ f.(field) = k.
Proof.
  revert acc w. induction l as [|f l IH]; intros acc w; simpl.
  - unfold ret. intros [= <- <-]. now left.
  - unfold bind.
    destruct (fieldsObject_step self schema c acc f w) as [[acc1|e] w1] eqn:E;
      [|discriminate].
    intros Hrun Hin. destruct (IH _ _ Hrun Hin) as [Hacc1 | [g [Hg [Hres Hk]]]].
    + destruct (string_dec k f.(field)) as [-> | Hne].
      * apply fieldsObject_step_run in E.
        destruct E as [[_ [-> _]] | [Hres _]]; [now left|].
        right. exists f. auto.
      * left. apply js_get_keys. apply js_get_keys in Hacc1.
        now rewrite <- (fieldsObject_step_frame _ _ _ _ _ _ E Hne).
    + right. exists g. auto.
Qed.

Lemma objectFields_loop_warnings (l : list Field) (acc : JSObj FieldConfig) (w : World)
    (res : JSObj FieldConfig) (w' : World) :
  foldM (fieldsObject_step self schema c) l acc w = (Return res, w') ->
  w'.(calls) = w.(calls)
  /\ w'.(warnings)
     = w.(warnings)
       ++ map (reserved_field_warning c)
            (filter (fun f => startsWith f.(field) "__") l).
Proof.
  revert acc w. induction l as [|f l IH]; intros acc w; simpl.
  - unfold ret. intros [= <- <-]. now rewrite app_nil_r.
  - unfold bind.
    destruct (fieldsObject_step self schema c acc f w) as [[acc1|e] w1] eqn:E;
      [|discriminate].
    intros Hrun. destruct (IH _ _ Hrun) as [Hc Hw]. rewrite Hc, Hw.
    apply fieldsObject_step_run in E.
    destruct E as [[Hres [_ ->]] | [Hres [-> _]]]; rewrite Hres; simpl.
    + now rewrite <- app_assoc.
    + now split.
Qed.

(** The thunk hands no read to a service, however it ends. *)
Lemma fieldsObject_assign_world (acc : JSObj FieldConfig) (f : Field) (w : World) :
  snd (fieldsObject_assign self schema c acc f w) = w.
Proof.
  unfold fieldsObject_assign.
  destruct (relationForField _ _ _) as [relation|]; [|reflexivity].
  destruct (getRelationType _ _ _) as [[| |]|]; try reflexivity.
  - unfold bind.
    pose proof (graphqlSchema_type_world schema (key_of relation.(one_collection)) w) as Hw.
    destruct (graphqlSchema_type schema (key_of relation.(one_collection)) w) as [[t|e] w1];
      simpl in *; now subst.
  - unfold bind.
    pose proof (graphqlSchema_type_world schema relation.(many_collection) w) as Hw.
    destruct (graphqlSchema_type schema relation.(many_collection) w) as [[t|e] w1];
      simpl in *; now subst.
  - destruct relation.(one_allowed_collections) as [allowed|]; [|reflexivity].
    unfold bind.
    destruct (graphqlSchema_types_run schema allowed w) as [Hw _].
    destruct (mapM (graphqlSchema_type schema) allowed w) as [[types|e] w1];
      simpl in *; now subst.
Qed.

Lemma fieldsObject_step_calls (acc : JSObj FieldConfig) (f : Field) (w : World) :
  (snd (fieldsObject_step self schema c acc f w)).(calls) = w.(calls).
Proof.
  unfold fieldsObject_step.
  destruct (startsWith f.(field) "__"); [reflexivity|].
  unfold bind.
  pose proof (fieldsObject_assign_world acc f w) as Hw.
  destruct (fieldsObject_assign self schema c acc f w) as [[assigned|e] w1];
    simpl in Hw; subst w1; [|reflexivity].
  now destruct (js_get assigned f.(field)).
Qed.

Lemma objectFields_loop_calls (l : list Field) (acc : JSObj FieldConfig) (w : World) :
  (snd (foldM (fieldsObject_step self schema c) l acc w)).(calls) = w.(calls).
Proof.
  revert acc w. induction l as [|f l IH]; intros acc w; simpl; [reflexivity|].
  unfold bind.
  pose proof (fieldsObject_step_calls acc f w) as Hstep.
  destruct (fieldsObject_step self schema c acc f w) as [[acc1|e] w1]; simpl in Hstep.
  - now rewrite IH.
  - exact Hstep.
Qed.

(** A related collection that has an entry gives its object type. *)
Lemma graphqlSchema_type_has (name : string) (w : World) :
  js_has (graphqlSchema schema) name = true ->
  graphqlSchema_type schema name w = (Return (OutObject name), w).
Proof.
  unfold js_has, graphqlSchema_type.
  destruct (js_get (graphqlSchema schema) name) as [section|] eqn:E; [|discriminate].
  intros _. now rewrite (graphqlSchema_entry _ _ _ E).
Qed.

Lemma graphqlSchema_types_has (names : list string) (w : World) :
  forallb (js_has (graphqlSchema schema)) names = true ->
  mapM (graphqlSchema_type schema) names w = (Return (map OutObject names), w).
Proof.
  induction names as [|name names IH]; simpl; [reflexivity|].
  intros Hall. apply andb_true_iff in Hall. destruct Hall as [Hhas Hall].
  unfold bind. rewrite (graphqlSchema_type_has _ _ Hhas), (IH Hall). reflexivity.
Qed.

(** A turn of the loop returns when the collections its field points at
    have entries. *)
Lemma fieldsObject_step_returns (acc : JSObj FieldConfig) (f : Field) (w : World) :
  startsWith f.(field) "__" = true \/ related_compiled self schema c f = true ->
  exists acc' w', fieldsObject_step self schema c acc f w = (Return acc', w').
Proof.
  unfold fieldsObject_step.
  destruct (startsWith f.(field) "__") eqn:Hres.
  - intros _. unfold bind, logger_warn, ret. eauto.
  - intros [Habs | Hok]; [discriminate|].
    assert (exists config,
               fieldsObject_assign self schema c acc f w
               = (Return (js_set acc f.(field) config), w)) as [config Hassign].
    { unfold related_compiled in Hok. unfold fieldsObject_assign.
      destruct (relationForField _ _ _) as [relation|]; [|unfold ret; eauto].
      destruct (getRelationType _ _ _) as [[| |]|]; [| | |discriminate].
      - unfold bind. rewrite (graphqlSchema_type_has _ _ Hok). unfold ret. eauto.
      - unfold bind. rewrite (graphqlSchema_type_has _ _ Hok). unfold ret. eauto.
      - destruct relation.(one_allowed_collections) as [allowed|]; [|discriminate].
        unfold bind. rewrite (graphqlSchema_types_has _ _ Hok). unfold ret. eauto. }
    unfold bind. rewrite Hassign, js_get_set_eq. unfold ret. eauto.
Qed.

Lemma objectFields_loop_returns (l : list Field) (acc : JSObj FieldConfig) (w : World) :
  forallb (fun f => negb (exposed f) || related_compiled self schema c f) l = true ->
  exists res w', foldM (fieldsObject_step self schema c) l acc w = (Return res, w').
Proof.
  revert acc w. induction l as [|f l IH]; intros acc w; simpl.
  - intros _. unfold ret. eauto.
  - intros Hall. apply andb_true_iff in Hall. destruct Hall as [Hf Hall].
    destruct (fieldsObject_step_returns acc f w) as [acc1 [w1 Hstep]].
    { unfold exposed in Hf. rewrite negb_involutive in Hf.
      now apply orb_true_iff in Hf. }
    unfold bind. rewrite Hstep. apply IH, Hall.
Qed.

End ObjectTypeFacts.

Section ObjectTypes.
Context {utils : SchemaUtils}.

(** What a thunk that ran to its end left for a relation field. *)
Lemma objectFields_relation_types (self schema : SchemaOverview) (c : Collection)
    (f : Field) (relation : Relation) (w : World)
    (fieldsObject : JSObj FieldConfig) (w' : World) :
  distinct (field_names c) = true ->
  In f (Object_values c.(fields)) ->
  startsWith f.(field) "__" = false ->
  relationForField self.(relations) c.(collection) f.(field) = Some relation ->
  objectFields self schema c w = (Return fieldsObject, w') ->
  exists config,
    js_get fieldsObject f.(field) = Some config
    /\ (getRelationType relation c.(collection) f.(field) = Some m2o ->
        config.(config_type) = OutObject (key_of relation.(one_collection))
        /\ js_has (graphqlSchema schema) (key_of relation.(one_collection)) = true)
    /\ (getRelationType relation c.(collection) f.(field) = Some o2m ->
        config.(config_type) = OutList (OutObject relation.(many_collection))
        /\ js_has (graphqlSchema schema) relation.(many_collection) = true
        /\ config.(config_args)
           = Some [ ("sort", {| arg_name := None;
                                arg_type := InList (InScalar GraphQLString) |});
                    ("limit", {| arg_name := None; arg_type := InScalar GraphQLInt |});
                    ("offset", {| arg_name := None; arg_type := InScalar GraphQLInt |});
                    ("page", {| arg_name := None; arg_type := InScalar GraphQLInt |});
                    ("search", {| arg_name := None; arg_type := InScalar GraphQLString |});
                    ("filter", {| arg_name := None;
                                  arg_type :=
                                    filterTypes_ref schema relation.(many_collection) |}) ])
    /\ (getRelationType relation c.(collection) f.(field) = Some m2a ->
        exists allowed,
          relation.(one_allowed_collections) = Some allowed
          /\ config.(config_type)
             = OutUnion (c.(collection) +++ "__" +++ f.(field))
                 (map OutObject allowed) relation.(one_collection_field)
          /\ forallb (js_has (graphqlSchema schema)) allowed = true).
Proof.
  intros Hd Hin Hres Hrel Hrun. unfold objectFields in Hrun.
  apply (objectFields_loop_written self schema c
           (fun config =>
              (getRelationType relation c.(collection) f.(field) = Some m2o ->
               config.(config_type) = OutObject (key_of relation.(one_collection))
               /\ js_has (graphqlSchema schema) (key_of relation.(one_collection)) = true)
              /\ (getRelationType relation c.(collection) f.(field) = Some o2m ->
                  config.(config_type) = OutList (OutObject relation.(many_collection))
                  /\ js_has (graphqlSchema schema) relation.(many_collection) = true
                  /\ config.(config_args)
                     = Some (shared_args ++
                             [ ("filter",
                                {| arg_name := None;
                                   arg_type :=
                                     filterTypes_ref schema relation.(many_collection) |}) ]))
              /\ (getRelationType relation c.(collection) f.(field) = Some m2a ->
                  exists allowed,
                    relation.(one_allowed_collections) = Some allowed
                    /\ config.(config_type)
                       = OutUnion (c.(collection) +++ "__" +++ f.(field))
                           (map OutObject allowed) relation.(one_collection_field)
                    /\ forallb (js_has (graphqlSchema schema)) allowed = true))
           (Object_values c.(fields)) [] w fieldsObject w' f);
    auto using distinct_NoDup.
  clear Hrun. intros acc0 w0 acc1 w1 Hstep.
  apply fieldsObject_step_run in Hstep.
  destruct Hstep as [[Habs _] | [_ [_ [assigned [config [Ha [Hg ->]]]]]]];
    [congruence|].
  rewrite js_get_set_eq. eexists. split; [reflexivity|]. simpl.
  apply fieldsObject_assign_run in Ha. destruct Ha as [_ Ha]. rewrite Hrel in Ha.
  destruct (getRelationType relation c.(collection) f.(field)) as [[| |]|].
  - destruct Ha as [-> Hhas]. rewrite js_get_set_eq in Hg. injection Hg as <-.
    simpl. repeat split; try discriminate; auto.
  - destruct Ha as [-> Hhas]. rewrite js_get_set_eq in Hg. injection Hg as <-.
    simpl. repeat split; try discriminate; auto.
  - destruct Ha as [allowed [Hal [-> Hall]]]. rewrite js_get_set_eq in Hg.
    injection Hg as <-. simpl. repeat split; try discriminate. intros _. eauto.
  - repeat split; discriminate.
Qed.

(** C7.  When every collection a relation field of [c] points at has an
    entry in [graphqlSchema], the [fields] thunk of the object type of [c]
    runs to its end, and in the fields it returns: a field classified
    many-to-one has the object type of the relation's one-side collection,
    not wrapped in a list; a field classified one-to-many has a list of
    the object type of the relation's many-side collection and takes the
    shared arguments [sort], [limit], [offset], [page], [search] and then
    a [filter] typed by the filter type of that collection; a field
    classified many-to-any has a union whose members are the object types
    of the relation's allowed collections, one for one. *)
Theorem object_field_types_by_relation (self schema : SchemaOverview) (c : Collection)
    (w : World) :
  distinct (field_names c) = true ->
  forallb (fun f => negb (exposed f) || related_compiled self schema c f)
    (Object_values c.(fields)) = true ->
  exists fieldsObject w',
    objectFields self schema c w = (Return fieldsObject, w')
    /\ forall f relation,
         In f (Object_values c.(fields)) ->
         exposed f = true ->
         relationForField self.(relations) c.(collection) f.(field) = Some relation ->
         exists config,
           js_get fieldsObject f.(field) = Some config
           /\ (getRelationType relation c.(collection) f.(field) = Some m2o ->
               config.(config_type) = OutObject (key_of relation.(one_collection)))
           /\ (getRelationType relation c.(collection) f.(field) = Some o2m ->
               config.(config_type) = OutList (OutObject relation.(many_collection))
               /\ config.(config_args)
                  = Some [ ("sort", {| arg_name := None;
                                       arg_type := InList (InScalar GraphQLString) |});
                           ("limit", {| arg_name := None; arg_type := InScalar GraphQLInt |});
                           ("offset", {| arg_name := None; arg_type := InScalar GraphQLInt |});
                           ("page", {| arg_name := None; arg_type := InScalar GraphQLInt |});
                           ("search", {| arg_name := None;
                                         arg_type := InScalar GraphQLString |});
                           ("filter", {| arg_name := None;
                                         arg_type :=
                                           filterTypes_ref schema
                                             relation.(many_collection) |}) ])
           /\ (getRelationType relation c.(collection) f.(field) = Some m2a ->
               exists allowed,
                 relation.(one_allowed_collections) = Some allowed
                 /\ config.(config_type)
                    = OutUnion (c.(collection) +++ "__" +++ f.(field))
                        (map OutObject allowed) relation.(one_collection_field)).
Proof.
  intros Hd Hall.
  destruct (objectFields_loop_returns self schema c (Object_values c.(fields)) [] w Hall)
    as [fieldsObject [w' Hrun]].
  exists fieldsObject, w'. split; [exact Hrun|].
  intros f relation Hin Hexp Hrel.
  assert (startsWith f.(field) "__" = false) as Hres.
  { unfold exposed in Hexp. now destruct (startsWith f.(field) "__"). }
  destruct (objectFields_relation_types self schema c f relation w fieldsObject w'
              Hd Hin Hres Hrel Hrun) as [config [Hget [Hm2o [Ho2m Hm2a]]]].
  exists config. split; [exact Hget|]. split; [|split].
  - intros H. exact (proj1 (Hm2o H)).
  - intros H. destruct (Ho2m H) as [Ht [_ Ha]]. now split.
  - intros H. destruct (Hm2a H) as [allowed [Hal [Ht _]]]. exists allowed. now split.
Qed.

(** Every filter type of the table was built from a collection of the schema. *)
Lemma getFilterArgs_entry (schema : SchemaOverview) (name : string)
    (filterType : GraphQLInputObjectType) :
  js_get (getFilterArgs schema) name = Some filterType ->
  exists c, filterType.(input_fields) = filterFields schema name c.
Proof.
  unfold getFilterArgs, Object_entries.
  assert (forall l acc,
            (forall k t, js_get acc k = Some t ->
                         exists c, t.(input_fields) = filterFields schema k c) ->
            forall k t,
              js_get
                (fold_left
                   (fun filterTypes '(collectionName, c) =>
                      js_set filterTypes collectionName
                        {| input_name := collectionName +++ "_filter";
                           input_fields := filterFields schema collectionName c |})
                   l acc) k = Some t ->
              exists c, t.(input_fields) = filterFields schema k c) as Hinv.
  { induction l as [|[k0 c0] l IH]; intros acc Hacc k t; simpl; [apply Hacc|].
    apply IH. intros k1 t1. destruct (string_dec k0 k1) as [<- | Hne].
    - rewrite js_get_set_eq. intros [= <-]. now exists c0.
    - rewrite js_get_set_neq by assumption. apply Hacc. }
  apply Hinv. intros k t H. discriminate.
Qed.

End ObjectTypes.

(* ================================================================== *)
(** ** The selection planner *)

Section Planner.
Context {ext : Collaborators}.
Variables (this : GraphQLService) (variableValues : JSObj JSValue).

Lemma parseFields_selection_field (name : string) (arguments : list ArgumentNode)
    (selectionSet : option (list SelectionNode)) (parent : option string) (query : Query) :
  parseFields_selection this variableValues (FieldNode name arguments selectionSet)
    parent query
  = if startsWith name "__" then Return ([], query)
    else
      let current :=
        if parent_given parent then template parent +++ "." +++ name else name in
      match
        match selectionSet with
        | Some selections => parseFields this variableValues selections (Some current) query
        | None => Return ([current], query)
        end
      with
      | Return (children, query') =>
          if (0 <? List.length arguments)%nat
          then Return (children, record_deep this variableValues query' current arguments)
          else Return (children, query')
      | Throw e => Throw e
      end.
Proof. destruct selectionSet; reflexivity. Qed.

Lemma parseFields_selection_fragment (typeName : string)
    (selectionSet : list SelectionNode) (parent : option string) (query : Query) :
  parseFields_selection this variableValues (InlineFragment (Some typeName) selectionSet)
    parent query
  = if startsWith typeName "__" then Return ([], query)
    else parseFields this variableValues selectionSet
           (Some (template parent +++ ":" +++ typeName)) query.
Proof. reflexivity. Qed.

Lemma parseFields_loop_app (before after : list SelectionNode) (parent : option string)
    (query : Query) (fields : list string) :
  parseFields_loop (parseFields_selection this variableValues)
    (before ++ after) parent query fields
  = match parseFields_loop (parseFields_selection this variableValues)
            before parent query fields with
    | Return (fields', query') =>
        parseFields_loop (parseFields_selection this variableValues)
          after parent query' fields'
    | Throw e => Throw e
    end.
Proof.
  revert query fields. induction before as [|selection before IH]; intros query fields.
  - reflexivity.
  - cbn [app parseFields_loop].
    destruct (parseFields_selection this variableValues selection parent query)
      as [[pushed query']|e]; [apply IH | reflexivity].
Qed.

(** A selection of a reserved name is passed over: no path, no deep block. *)
Lemma parseFields_skips_reserved (name : string) (arguments : list ArgumentNode)
    (selectionSet : option (list SelectionNode)) (before after : list SelectionNode)
    (parent : option string) (query : Query) :
  startsWith name "__" = true ->
  parseFields this variableValues
    (before ++ FieldNode name arguments selectionSet :: after) parent query
  = parseFields this variableValues (before ++ after) parent query.
Proof.
  intros Hres. unfold parseFields. rewrite !parseFields_loop_app.
  destruct (parseFields_loop (parseFields_selection this variableValues)
              before parent query [])
    as [[fields' query']|e]; [|reflexivity].
  cbn [parseFields_loop]. rewrite parseFields_selection_field, Hres.
  now rewrite app_nil_r.
Qed.

End Planner.

(* ================================================================== *)
(** ** Reserved names *)

Section Reserved.
Context {utils : SchemaUtils} {ext : Collaborators}.

(** C9.  A field whose name starts with two underscores is in no compiled
    object type and in no compiled filter type, whatever the schema; the
    thunk of the object type logs one warning for each such field, in the
    order of the fields.  A selection of such a name gives the planner no
    path and no deep block, wherever it stands in the selection set. *)
Theorem reserved_names_never_exposed :
  (forall (self schema : SchemaOverview) (c : Collection) (w : World)
          (fieldsObject : JSObj FieldConfig) (w' : World),
      objectFields self schema c w = (Return fieldsObject, w') ->
      (forall k, In k (Object_keys fieldsObject) -> startsWith k "__" = false)
      /\ (forall f, In f (Object_values c.(fields)) ->
                    startsWith f.(field) "__" = true ->
                    js_get fieldsObject f.(field) = None)
      /\ w'.(warnings)
         = w.(warnings)
           ++ map (reserved_field_warning c)
                (filter (fun f => startsWith f.(field) "__") (Object_values c.(fields))))
  /\ (forall (schema : SchemaOverview) (name : string) (filterType : GraphQLInputObjectType),
        js_get (getFilterArgs schema) name = Some filterType ->
        (forall k, In k (Object_keys filterType.(input_fields)) ->
                   startsWith k "__" = false)
        /\ (forall f, startsWith f.(field) "__" = true ->
                      js_get filterType.(input_fields) f.(field) = None))
  /\ (forall (this : GraphQLService) (variableValues : JSObj JSValue) (name : string)
             (arguments : list ArgumentNode) (selectionSet : option (list SelectionNode))
             (before after : list SelectionNode) (parent : option string) (query : Query),
        startsWith name "__" = true ->
        parseFields_selection this variableValues
          (FieldNode name arguments selectionSet) parent query = Return ([], query)
        /\ parseFields this variableValues
             (before ++ FieldNode name arguments selectionSet :: after) parent query
           = parseFields this variableValues (before ++ after) parent query).
Proof.
  split; [|split].
  - intros self schema c w fieldsObject w' Hrun. unfold objectFields in Hrun.
    assert (forall k, In k (Object_keys fieldsObject) -> startsWith k "__" = false)
      as Hkeys.
    { intros k Hk.
      destruct (objectFields_loop_keys self schema c _ _ _ _ _ k Hrun Hk)
        as [[] | [f [_ [Hres <-]]]].
      exact Hres. }
    split; [exact Hkeys|]. split.
    + intros f _ Hres. destruct (js_get fieldsObject f.(field)) eqn:E; [|reflexivity].
      assert (In f.(field) (Object_keys fieldsObject)) as Hin
        by (apply js_get_keys; congruence).
      apply Hkeys in Hin. congruence.
    + apply (objectFields_loop_warnings self schema c _ _ _ _ _ Hrun).
  - intros schema name filterType Hget.
    destruct (getFilterArgs_entry schema name filterType Hget) as [c Hc].
    assert (forall k, In k (Object_keys filterType.(input_fields)) ->
                      startsWith k "__" = false) as Hkeys.
    { intros k Hk. rewrite Hc in Hk. exact (filterFields_keys schema name c k Hk). }
    split; [exact Hkeys|].
    intros f Hres. destruct (js_get filterType.(input_fields) f.(field)) eqn:E; [|reflexivity].
    assert (In f.(field) (Object_keys filterType.(input_fields))) as Hin
      by (apply js_get_keys; congruence).
    apply Hkeys in Hin. congruence.
  - intros this variableValues name arguments selectionSet before after parent query Hres.
    split.
    + now rewrite parseFields_selection_field, Hres.
    + now apply parseFields_skips_reserved.
Qed.

End Reserved.

(* ================================================================== *)
(** ** Union resolution *)

Lemma find_member (X : string) (allowed : list string) :
  In X allowed ->
  find (name_is (JString X)) (map OutObject allowed) = Some (OutObject X).
Proof.
  induction allowed as [|a allowed IH]; intros Hin; [contradiction|].
  cbn [map find name_is type_name].
  destruct (String.eqb a X) eqn:E.
  - apply String.eqb_eq in E. now subst.
  - apply String.eqb_neq in E. destruct Hin as [-> | Hin]; [contradiction | now apply IH].
Qed.

Lemma find_no_member (X : string) (allowed : list string) :
  ~ In X allowed ->
  find (name_is (JString X)) (map OutObject allowed) = None.
Proof.
  induction allowed as [|a allowed IH]; intros Hnotin; [reflexivity|].
  cbn [map find name_is type_name].
  destruct (String.eqb a X) eqn:E.
  - apply String.eqb_eq in E. subst. exfalso. apply Hnotin. now left.
  - apply IH. intros Hin. apply Hnotin. now right.
Qed.

(** Where the walk of [resolveType] ends at the enclosing object: a union
    field that sits directly on the result of a root field.  The member
    named by the discriminator is picked, and a discriminator that names
    no member gives no type. *)
Lemma resolveType_on_root_object (allowed : list string) (discriminator : string)
    (root : PathKey) (key : PathKey) (props : list (string * JSValue)) (X : string)
    (w : World) :
  js_get props discriminator = Some (JString X) ->
  resolveType (map OutObject allowed) (Some discriminator) (JObject props)
    (MkPath (Some (MkPath None root)) key) w
  = (Return (find (name_is (JString X)) (map OutObject allowed)), w)
  /\ (In X allowed ->
      find (name_is (JString X)) (map OutObject allowed) = Some (OutObject X))
  /\ (~ In X allowed ->
      find (name_is (JString X)) (map OutObject allowed) = None).
Proof.
  intros Hd. split; [|split; [apply find_member | apply find_no_member]].
  unfold resolveType. cbn [path_keys rev app Array_slice List.length].
  cbn -[js_get String.eqb]. unfold bind, ret. cbn -[js_get String.eqb].
  now rewrite Hd.
Qed.

(** C3.  The union compiled for the field [item] of [sections] has the
    members [posts] and [pages].  The resolver of the root field
    [sections] leaves in [context.data] the list the service answered, in
    which the first section holds ["pages"] in its discriminator field
    [collection].  The path of that section's [item] is [sections], [0],
    [item]; the loop collects [item] and [0], and the slice drops both, so
    the discriminator is read from the list of sections itself: no member
    is picked, though [pages] is one. *)
Theorem resolveType_reads_wrong_object :
  (exists fieldsObject w,
      objectFields (utils := Example.utils) Example.blog Example.blog Example.sections
        Example.world0 = (Return fieldsObject, w)
      /\ option_map config_type (js_get fieldsObject "item")
         = Some (OutUnion "sections__item" [OutObject "posts"; OutObject "pages"]
                   (Some "collection")))
  /\ (exists w,
        section_resolve (ext := Example.collaborators) Example.service items
          Example.sections_info [] Example.world0
        = (Return (Example.sections_data, [ ("data", Example.sections_data) ]), w))
  /\ path_keys Example.item_path = [KeyString "item"; KeyNumber 0]
  /\ Array_slice (rev (path_keys Example.item_path)) 1 (-1) = []
  /\ own_property (own_property Example.sections_data (KeyNumber 0)) (KeyString "collection")
     = JString "pages"
  /\ resolveType [OutObject "posts"; OutObject "pages"] (Some "collection")
       Example.sections_data Example.item_path Example.world0
     = (Return None, Example.world0).
Proof.
  split; [|split; [|repeat split; reflexivity]].
  - eexists. eexists. split; reflexivity.
  - eexists. reflexivity.
Qed.

(** One level deeper under a list, the walk starts at the key [section],
    which the list does not have, and the read of the discriminator throws. *)
Lemma resolveType_throws_below_list :
  Array_slice (rev (path_keys Example.nested_item_path)) 1 (-1) = [KeyString "section"]
  /\ resolveType [OutObject "posts"; OutObject "pages"] (Some "collection")
       Example.posts_data Example.nested_item_path Example.world0
     = (Throw (TypeError "Cannot read property of undefined"), Example.world0).
Proof. split; reflexivity. Qed.

(* ================================================================== *)
(** ** Deep blocks: renamed keys, merged blocks *)

Section LodashFacts.
Import Lodash.















End LodashFacts.

Section DeepBlocks.
Context {ext : Collaborators}.
Variables (this : GraphQLService) (variableValues : JSObj JSValue).





End DeepBlocks.

(* ================================================================== *)
(** ** The properties at work on the example schema *)

(** The field [author] of [posts] is many-to-one: its member in the filter
    type of [posts] is the filter type of [authors]. *)
Lemma filter_members_of_relation_fields_example :
  well_formed Example.blog = true
  /\ In ("posts", Example.posts) Example.blog.(collections)
  /\ relationForField Example.blog.(relations) "posts" "author" = Some Example.posts_author
  /\ exists filterType,
       js_get (getFilterArgs (utils := Example.utils) Example.blog) "posts" = Some filterType
       /\ js_get filterType.(input_fields) "author" = Some (InFilter "authors").
Proof.
  split; [reflexivity|]. split; [simpl; auto|]. split; [reflexivity|].
  destruct (filter_members_of_relation_fields (utils := Example.utils)
              Example.blog "posts" Example.posts
              {| field := "author"; type := "integer"; note := None |}
              Example.posts_author)
    as [filterType [Hget [_ [Hm2o _]]]].
  - reflexivity.
  - simpl; auto.
  - simpl; auto.
  - reflexivity.
  - reflexivity.
  - exists filterType. split; [exact Hget|]. apply Hm2o. reflexivity.
Defined.

(** The filter type of [authors]: the operator set of [name], and [_and]
    over a list of the filter type itself. *)
Lemma filter_operators_and_composition_example :
  well_formed Example.blog = true
  /\ In ("authors", Example.authors) Example.blog.(collections)
  /\ ~ In "_and" (field_names Example.authors)
  /\ exists filterType,
       js_get (getFilterArgs (utils := Example.utils) Example.blog) "authors" = Some filterType
       /\ js_get filterType.(input_fields) "_and" = Some (InList (InFilter "authors"))
       /\ exists operators,
            js_get filterType.(input_fields) "name"
            = Some (InOperators "authors_name_filter_operators" operators)
            /\ Object_keys operators
               = [ "_eq"; "_neq"; "_contains"; "_ncontains"; "_in"; "_nin"; "_gt";
                   "_gte"; "_lt"; "_lte"; "_null"; "_nnull"; "_empty"; "_nempty" ].
Proof.
  assert (~ In "_and" (field_names Example.authors)) as Hand.
  { simpl. intros [H | [H | [H | []]]]; discriminate H. }
  split; [reflexivity|]. split; [simpl; auto|]. split; [exact Hand|].
  destruct (filter_operators_and_composition (utils := Example.utils)
              Example.blog "authors" Example.authors)
    as [filterType [Hget [Hops [Hcomp _]]]].
  - reflexivity.
  - simpl; auto.
  - exists filterType. split; [exact Hget|]. split; [exact (Hcomp Hand)|].
    eexists. split.
    + apply (Hops {| field := "name"; type := "string"; note := None |}).
      * simpl; auto.
      * reflexivity.
      * reflexivity.
    + reflexivity.
Defined.

(** The database flags [settings] a singleton and [posts] not; it has no
    row for [directus_settings] and [directus_users], which the static
    table lists as a singleton and as a list; [pages] has no row at all. *)
Lemma getData_read_path_example :
  let handed collection :=
    (snd (getData (ext := Example.collaborators) Example.service collection
            Example.selection_a_b_c [] [] Example.world0)).(calls) in
  let read collection operation :=
    [ {| call_service := ItemsService collection;
         call_operation := operation;
         call_query := [ ("fields", JArray [ JString "a.b"; JString "a.c" ]) ];
         call_stripNonRequested := false |} ] in
  parseFields (ext := Example.collaborators) Example.service [] Example.selection_a_b_c None
    (sanitizeQuery (Collaborators := Example.collaborators) (parseArgs [] [])
       Example.service.(accountability))
  = Return (["a.b"; "a.c"], [])
  /\ handed "settings" = read "settings" readSingleton
  /\ handed "posts" = read "posts" readByQuery
  /\ handed "directus_settings" = read "directus_settings" readSingleton
  /\ handed "directus_users" = read "directus_users" readByQuery
  /\ handed "pages" = read "pages" readByQuery.
Proof.
  intros handed read.
  pose (path collection :=
          getData_read_path (ext := Example.collaborators) Example.service collection
            Example.selection_a_b_c [] [] ["a.b"; "a.c"] [] Example.world0 eq_refl).
  split; [reflexivity|]. split; [|split; [|split; [|split]]].
  - exact (proj1 (path "settings") eq_refl).
  - exact (proj1 (proj2 (path "posts")) eq_refl).
  - exact (proj1 (proj2 (proj2 (path "directus_settings")))
             {| meta_collection := "directus_settings"; meta_singleton := true |}
             eq_refl eq_refl eq_refl).
  - exact (proj1 (proj2 (proj2 (proj2 (path "directus_users"))))
             {| meta_collection := "directus_users"; meta_singleton := false |}
             eq_refl eq_refl eq_refl).
  - exact (proj2 (proj2 (proj2 (proj2 (path "pages")))) eq_refl eq_refl).
Defined.

(** The three relation fields of the example schema: [author] of [posts]
    is many-to-one, [posts] of [authors] is one-to-many, [item] of
    [sections] is many-to-any over [posts] and [pages]. *)
Lemma object_field_types_by_relation_example :
  let compiled c :=
    fst (objectFields (utils := Example.utils) Example.blog Example.blog c Example.world0) in
  (exists fieldsObject config,
      compiled Example.posts = Return fieldsObject
      /\ js_get fieldsObject "author" = Some config
      /\ config.(config_type) = OutObject "authors")
  /\ (exists fieldsObject config,
         compiled Example.authors = Return fieldsObject
         /\ js_get fieldsObject "posts" = Some config
         /\ config.(config_type) = OutList (OutObject "posts")
         /\ option_map (@Object_keys ArgConfig) config.(config_args)
            = Some [ "sort"; "limit"; "offset"; "page"; "search"; "filter" ]
         /\ option_map (fun args => js_get args "filter") config.(config_args)
            = Some (Some {| arg_name := None; arg_type := InFilter "posts" |}))
  /\ (exists fieldsObject config,
         compiled Example.sections = Return fieldsObject
         /\ js_get fieldsObject "item" = Some config
         /\ config.(config_type)
            = OutUnion "sections__item" [ OutObject "posts"; OutObject "pages" ]
                (Some "collection")).
Proof.
  intros compiled. subst compiled.
  pose (thunk c :=
          object_field_types_by_relation (utils := Example.utils) Example.blog Example.blog c
            Example.world0).
  split; [|split].
  - destruct (thunk Example.posts eq_refl eq_refl) as [fieldsObject [w [Hrun Hfields]]].
    destruct (Hfields {| field := "author"; type := "integer"; note := None |}
                Example.posts_author) as [config [Hget [Hm2o _]]];
      [simpl; auto | reflexivity | reflexivity |].
    exists fieldsObject, config. rewrite Hrun. split; [reflexivity|].
    split; [exact Hget|]. exact (Hm2o eq_refl).
  - destruct (thunk Example.authors eq_refl eq_refl) as [fieldsObject [w [Hrun Hfields]]].
    destruct (Hfields {| field := "posts"; type := "alias"; note := None |}
                Example.posts_author) as [config [Hget [_ [Ho2m _]]]];
      [simpl; auto | reflexivity | reflexivity |].
    destruct (Ho2m eq_refl) as [Htype Hargs].
    exists fieldsObject, config. rewrite Hrun. split; [reflexivity|].
    split; [exact Hget|]. split; [exact Htype|]. rewrite Hargs. split; reflexivity.
  - destruct (thunk Example.sections eq_refl eq_refl) as [fieldsObject [w [Hrun Hfields]]].
    destruct (Hfields {| field := "item"; type := "string"; note := None |}
                Example.sections_item) as [config [Hget [_ [_ Hm2a]]]];
      [simpl; auto | reflexivity | reflexivity |].
    destruct (Hm2a eq_refl) as [allowed [Hallowed Htype]].
    injection Hallowed as <-.
    exists fieldsObject, config. rewrite Hrun. split; [reflexivity|].
    split; [exact Hget|]. exact Htype.
Defined.

(** The reserved field [__secret] of [posts] is in neither compiled type,
    and is warned about once. *)
Lemma reserved_names_never_exposed_example :
  exists fieldsObject w filterType,
    objectFields (utils := Example.utils) Example.blog Example.blog Example.posts
      Example.world0 = (Return fieldsObject, w)
    /\ js_get (getFilterArgs (utils := Example.utils) Example.blog) "posts" = Some filterType
    /\ js_get fieldsObject "__secret" = None
    /\ js_get filterType.(input_fields) "__secret" = None
    /\ List.length w.(warnings) = 1%nat.
Proof.
  destruct (reserved_names_never_exposed (utils := Example.utils)
              (ext := Example.collaborators)) as [Hobject [Hfilter _]].
  destruct (objectFields (utils := Example.utils) Example.blog Example.blog Example.posts
              Example.world0) as [outcome w] eqn:Hrun.
  destruct outcome as [fieldsObject|e]; [|vm_compute in Hrun; discriminate Hrun].
  destruct (js_get (getFilterArgs (utils := Example.utils) Example.blog) "posts")
    as [filterType|] eqn:Hget; [|vm_compute in Hget; discriminate Hget].
  destruct (Hobject Example.blog Example.blog Example.posts Example.world0 fieldsObject w Hrun)
    as [_ [Hnone Hwarn]].
  destruct (Hfilter Example.blog "posts" filterType Hget) as [_ Hnone'].
  exists fieldsObject, w, filterType.
  split; [reflexivity|]. split; [reflexivity|]. split; [|split].
  - apply (Hnone {| field := "__secret"; type := "string"; note := None |});
      [simpl; auto | reflexivity].
  - apply (Hnone' {| field := "__secret"; type := "string"; note := None |}). reflexivity.
  - rewrite Hwarn. reflexivity.
Defined.


(* ================================================================== *)
(** * Further properties of the service *)

(** ** The argument decoder *)

Lemma arguments_keys (variableValues : JSObj JSValue) (args : list ArgumentNode)
    (acc : JSObj JSValue) (k : string) :
  In k (Object_keys
          (fold_left
             (fun argsObject '(name, value) =>
                js_set argsObject name (parseArgs_value variableValues value))
             args acc))
  <-> In k (Object_keys acc) \/ In k (map fst args).
Proof.
  revert acc. induction args as [|[name value] args IH]; intros acc; cbn [fold_left map fst In].
  - tauto.
  - rewrite IH, js_set_keys. intuition.
Qed.

(** X1.  For arguments in which no name, of an argument, of a field of
    an object or of a variable, is one that every object inherits (such
    as [__proto__] or [constructor]): the object [parseArgs] returns has
    exactly the names of the arguments as keys; when the names are
    distinct, each holds the decoded value of its argument, and a name
    given again takes the later value. *)
Theorem parseArgs_names_and_values (variableValues : JSObj JSValue)
    (args : list ArgumentNode) :
  own_arguments args = true ->
  (forall k, js_get (parseArgs args variableValues) k <> None <-> In k (map fst args))
  /\ (forall name value,
        NoDup (map fst args) ->
        In (name, value) args ->
        js_get (parseArgs args variableValues) name
        = Some (parseArgs_value variableValues value))
  /\ (forall before name value,
        args = before ++ [ (name, value) ] ->
        js_get (parseArgs args variableValues) name
        = Some (parseArgs_value variableValues value)).
Proof.
  intros _. split; [|split].
  - intros k. rewrite js_get_keys. unfold parseArgs.
    rewrite arguments_keys. cbn [Object_keys map In]. tauto.
  - intros name value Hnd Hin. unfold parseArgs.
    exact (table_lookup _ _ (fun _ v => parseArgs_value variableValues v)
             args [] name value Hnd Hin).
  - intros before name value ->. unfold parseArgs. rewrite fold_left_app.
    cbn [fold_left]. apply js_get_set_eq.
Qed.

Lemma parseArgs_names_and_values_example :
  own_arguments [ ("limit", IntValue "5"); ("search", VariableNode "term") ] = true
  /\ NoDup (map fst [ ("limit", IntValue "5"); ("search", VariableNode "term") ])
  /\ js_get (parseArgs [ ("limit", IntValue "5"); ("search", VariableNode "term") ]
               [ ("term", JString "tea") ]) "search"
     = Some (JString "tea").
Proof.
  assert (NoDup (map fst [ ("limit", IntValue "5"); ("search", VariableNode "term") ]))
    as Hnd.
  { cbn [map fst]. repeat constructor; cbn [In]; intuition discriminate. }
  split; [reflexivity|]. split; [exact Hnd|].
  destruct (parseArgs_names_and_values [ ("term", JString "tea") ]
              [ ("limit", IntValue "5"); ("search", VariableNode "term") ] eq_refl)
    as [_ [Hvalue _]].
  apply (Hvalue "search" (VariableNode "term") Hnd). cbn [In]. auto.
Defined.



(* ================================================================== *)
(** ** The selection planner, over whole selection trees *)

(** Induction over a selection and, with it, over the selections below it. *)
Lemma SelectionNode_nested_ind (P : SelectionNode -> Prop) :
  (forall name, P (FragmentSpread name)) ->
  (forall typeCondition selectionSet,
      Forall P selectionSet -> P (InlineFragment typeCondition selectionSet)) ->
  (forall name arguments selectionSet,
      match selectionSet with
      | Some selections => Forall P selections
      | None => True
      end ->
      P (FieldNode name arguments selectionSet)) ->
  forall selection, P selection.
Proof.
  intros Hspread Hfragment Hfield.
  refine (fix IH (selection : SelectionNode) : P selection :=
            match selection with
            | FragmentSpread name => Hspread name
            | InlineFragment typeCondition selectionSet =>
                Hfragment typeCondition selectionSet
                  ((fix all (l : list SelectionNode) : Forall P l :=
                      match l with
                      | [] => Forall_nil P
                      | s :: rest => Forall_cons s (IH s) (all rest)
                      end) selectionSet)
            | FieldNode name arguments selectionSet =>
                Hfield name arguments selectionSet
                  match selectionSet with
                  | Some selections =>
                      (fix all (l : list SelectionNode) : Forall P l :=
                         match l with
                         | [] => Forall_nil P
                         | s :: rest => Forall_cons s (IH s) (all rest)
                         end) selections
                  | None => I
                  end
            end).
Qed.

Lemma length_append (a b : string) :
  String.length (a +++ b) = String.length a + String.length b.
Proof. induction a as [|c a IH]; simpl; [reflexivity | now rewrite IH]. Qed.

Lemma prefix_append (p x : string) : String.prefix p (p +++ x) = true.
Proof.
  induction p as [|c p IH]; simpl; [now destruct x|].
  destruct (ascii_dec c c); [exact IH | congruence].
Qed.

Lemma prefix_trans (a b c : string) :
  String.prefix a b = true -> String.prefix b c = true -> String.prefix a c = true.
Proof.
  revert b c. induction a as [|x a IH]; intros b c Hab Hbc.
  - now destruct c.
  - destruct b as [|y b]; [discriminate|]. destruct c as [|z c]; [discriminate|].
    simpl in *. destruct (ascii_dec x y) as [->|]; [|discriminate].
    destruct (ascii_dec y z) as [->|]; [|discriminate].
    destruct (ascii_dec z z); [|congruence]. eapply IH; eassumption.
Qed.

Lemma prefix_length (a b : string) :
  String.prefix a b = true -> String.length a <= String.length b.
Proof.
  revert b. induction a as [|x a IH]; intros b H; simpl; [lia|].
  destruct b as [|y b]; [discriminate|]. simpl in *.
  destruct (ascii_dec x y); [|discriminate]. apply IH in H. lia.
Qed.

Lemma extends_append (p sep name : string) :
  sep <> "" -> extends p (p +++ sep +++ name).
Proof.
  intros Hsep. split; [apply prefix_append|].
  rewrite !length_append. destruct sep; [congruence | simpl; lia].
Qed.

Lemma extends_trans (a b c : string) : extends a b -> extends b c -> extends a c.
Proof.
  intros [Hab Lab] [Hbc Lbc]. split; [eapply prefix_trans; eassumption | lia].
Qed.

Section PlannerTrees.
Context {ext : Collaborators}.
Variables (this : GraphQLService) (variableValues : JSObj JSValue).

Lemma parseFields_loop_pushes (turn : SelectionNode -> option string -> Query ->
                                      Outcome (list string * Query))
    (selections : list SelectionNode) (parent : option string) (query : Query)
    (fields : list string) :
  parseFields_loop turn selections parent query fields
  = match parseFields_loop turn selections parent query [] with
    | Return (pushed, query') => Return (fields ++ pushed, query')
    | Throw e => Throw e
    end.
Proof.
  revert query fields. induction selections as [|selection rest IH]; intros query fields.
  - cbn [parseFields_loop]. now rewrite app_nil_r.
  - cbn [parseFields_loop]. destruct (turn selection parent query) as [[pushed query']|e];
      [|reflexivity].
    rewrite (IH query' (fields ++ pushed)), (IH query' ([] ++ pushed)).
    destruct (parseFields_loop turn rest parent query' []) as [[more query'']|e];
      [|reflexivity].
    now rewrite app_assoc.
Qed.

(** X3.  Planning a selection set made of two parts is planning the first
    part and then, on the query the first part left, the second: the paths
    are those of the first part followed by those of the second, and an
    exception in either part is the exception of the whole. *)
Theorem parseFields_of_two_parts (before after : list SelectionNode)
    (parent : option string) (query : Query) :
  parseFields this variableValues (before ++ after) parent query
  = match parseFields this variableValues before parent query with
    | Return (fields, query') =>
        match parseFields this variableValues after parent query' with
        | Return (more, query'') => Return (fields ++ more, query'')
        | Throw e => Throw e
        end
    | Throw e => Throw e
    end.
Proof.
  unfold parseFields. rewrite parseFields_loop_app.
  destruct (parseFields_loop (parseFields_selection this variableValues)
              before parent query []) as [[fields query']|e]; [|reflexivity].
  apply parseFields_loop_pushes.
Qed.

(** Below a parent that has a path, every path the planner gives is a
    proper extension of the parent's path. *)
Lemma parseFields_selection_extends (selection : SelectionNode) :
  forall parent query fields query' p,
    parseFields_selection this variableValues selection parent query
    = Return (fields, query') ->
    parent = Some p -> p <> "" ->
    Forall (extends p) fields.
Proof.
  assert (forall selections,
             Forall (fun selection =>
                       forall parent query fields query' p,
                         parseFields_selection this variableValues selection parent query
                         = Return (fields, query') ->
                         parent = Some p -> p <> "" -> Forall (extends p) fields)
               selections ->
             forall p query acc fields query',
               p <> "" ->
               Forall (extends p) acc ->
               parseFields_loop (parseFields_selection this variableValues)
                 selections (Some p) query acc = Return (fields, query') ->
               Forall (extends p) fields) as Hloop.
  { intros selections Hall. induction Hall as [|s rest Hs _ IH];
      intros p query acc fields query' Hp Hacc; cbn [parseFields_loop].
    - now intros [= <- <-].
    - destruct (parseFields_selection this variableValues s (Some p) query)
        as [[pushed query1]|e] eqn:E; [|discriminate].
      apply IH; [assumption|]. apply Forall_app. split; [assumption|].
      eapply Hs; eauto. }
  induction selection as [name | typeCondition selectionSet IH
                          | name arguments selectionSet IH]
    using SelectionNode_nested_ind; intros parent query fields query' p Hrun -> Hp.
  - cbn in Hrun. injection Hrun as <- <-. constructor.
  - destruct typeCondition as [typeName|]; [|discriminate].
    rewrite parseFields_selection_fragment in Hrun.
    destruct (startsWith typeName "__"); [injection Hrun as <- <-; constructor|].
    unfold parseFields in Hrun. cbn [template] in Hrun.
    assert (extends p (p +++ ":" +++ typeName)) as Hcur
      by (apply extends_append; discriminate).
    apply Hloop in Hrun; auto.
    + eapply Forall_impl; [|exact Hrun]. intros path. now apply extends_trans.
    + intros Heq. destruct Hcur as [_ Hlen]. rewrite Heq in Hlen. simpl in Hlen. lia.
  - rewrite parseFields_selection_field in Hrun.
    destruct (startsWith name "__"); [injection Hrun as <- <-; constructor|].
    cbv zeta in Hrun.
    assert (parent_given (Some p) = true) as Hgiven.
    { cbn [parent_given]. destruct (String.eqb p "") eqn:E; [|reflexivity].
      apply String.eqb_eq in E. contradiction. }
    rewrite Hgiven in Hrun. cbn [template] in Hrun.
    assert (extends p (p +++ "." +++ name)) as Hcur
      by (apply extends_append; discriminate).
    destruct selectionSet as [selections|].
    + destruct (parseFields this variableValues selections
                  (Some (p +++ "." +++ name)) query) as [[children query1]|e] eqn:E;
        [|discriminate].
      assert (fields = children) as ->
        by (destruct (0 <? List.length arguments)%nat; now injection Hrun).
      unfold parseFields in E. apply Hloop in E; auto.
      * eapply Forall_impl; [|exact E]. intros path. now apply extends_trans.
      * intros Heq. destruct Hcur as [_ Hlen]. rewrite Heq in Hlen. simpl in Hlen. lia.
    + assert (fields = [ p +++ "." +++ name ]) as ->
        by (destruct (0 <? List.length arguments)%nat; now injection Hrun).
      constructor; [exact Hcur | constructor].
Qed.

Lemma parseFields_extends (selections : list SelectionNode) (p : string) (query : Query)
    (fields : list string) (query' : Query) :
  p <> "" ->
  parseFields this variableValues selections (Some p) query = Return (fields, query') ->
  Forall (extends p) fields.
Proof.
  intros Hp. unfold parseFields.
  assert (forall acc, Forall (extends p) acc ->
             forall q,
             parseFields_loop (parseFields_selection this variableValues)
               selections (Some p) q acc = Return (fields, query') ->
             Forall (extends p) fields) as Hgen.
  { induction selections as [|s rest IH]; intros acc Hacc q; cbn [parseFields_loop].
    - now intros [= <- <-].
    - destruct (parseFields_selection this variableValues s (Some p) q)
        as [[pushed query1]|e] eqn:E; [|discriminate].
      apply IH. apply Forall_app. split; [assumption|].
      eapply parseFields_selection_extends; eauto. }
  apply Hgen. constructor.
Qed.

(** X4.  Under a parent that has a path, every path the planner gives
    starts with the parent's path and is longer than it, at whatever depth
    the field stands: the path of the parent itself is never among them. *)
Theorem parseFields_paths_extend_parent (selections : list SelectionNode) (p : string)
    (query : Query) (fields : list string) (query' : Query) :
  p <> "" ->
  parseFields this variableValues selections (Some p) query = Return (fields, query') ->
  Forall (extends p) fields /\ ~ In p fields.
Proof.
  intros Hp Hrun. pose proof (parseFields_extends _ _ _ _ _ Hp Hrun) as Hall.
  split; [exact Hall|].
  intros Hin. rewrite Forall_forall in Hall. destruct (Hall p Hin) as [_ Hlen]. lia.
Qed.

(** X5.  An inline fragment among the root selections has no parent path
    to start from: the template prints [undefined], and every path below
    the fragment starts with [undefined:] and the name of the type. *)
Theorem parseFields_root_fragment_paths (typeName : string)
    (selectionSet : list SelectionNode) (query : Query) (fields : list string)
    (query' : Query) :
  startsWith typeName "__" = false ->
  parseFields this variableValues [ InlineFragment (Some typeName) selectionSet ] None query
  = Return (fields, query') ->
  Forall (extends ("undefined:" +++ typeName)) fields.
Proof.
  intros Hres Hrun. unfold parseFields in Hrun. cbn [parseFields_loop] in Hrun.
  rewrite parseFields_selection_fragment, Hres in Hrun. cbn [template] in Hrun.
  destruct (parseFields this variableValues selectionSet
              (Some ("undefined" +++ ":" +++ typeName)) query)
    as [[pushed query1]|e] eqn:E; [|discriminate].
  cbn [app] in Hrun. injection Hrun as <- <-.
  change ("undefined" +++ ":" +++ typeName) with ("undefined:" +++ typeName) in E.
  apply parseFields_extends in E; [exact E | discriminate].
Qed.

Lemma parseFields_selection_keeps_query (selection : SelectionNode) :
  no_arguments selection = true ->
  forall parent query fields query',
    parseFields_selection this variableValues selection parent query
    = Return (fields, query') ->
    query' = query.
Proof.
  assert (forall selections,
             Forall (fun selection =>
                       no_arguments selection = true ->
                       forall parent query fields query',
                         parseFields_selection this variableValues selection parent query
                         = Return (fields, query') -> query' = query) selections ->
             forallb no_arguments selections = true ->
             forall parent query acc fields query',
               parseFields_loop (parseFields_selection this variableValues)
                 selections parent query acc = Return (fields, query') ->
               query' = query) as Hloop.
  { intros selections Hall. induction Hall as [|s rest Hs _ IH];
      intros Hno parent query acc fields query'; cbn [parseFields_loop].
    - now intros [= _ <-].
    - cbn [forallb] in Hno. apply andb_true_iff in Hno. destruct Hno as [Hs_no Hrest].
      destruct (parseFields_selection this variableValues s parent query)
        as [[pushed query1]|e] eqn:E; [|discriminate].
      intros Hrun. apply (Hs Hs_no) in E. subst query1. eapply IH; eassumption. }
  induction selection as [name | typeCondition selectionSet IH
                          | name arguments selectionSet IH]
    using SelectionNode_nested_ind; intros Hno parent query fields query' Hrun.
  - cbn in Hrun. now injection Hrun.
  - destruct typeCondition as [typeName|]; [|discriminate].
    rewrite parseFields_selection_fragment in Hrun.
    destruct (startsWith typeName "__"); [now injection Hrun|].
    cbn [no_arguments] in Hno. eapply Hloop; eassumption.
  - rewrite parseFields_selection_field in Hrun.
    destruct (startsWith name "__"); [now injection Hrun|].
    cbv zeta in Hrun. cbn [no_arguments] in Hno.
    apply andb_true_iff in Hno. destruct Hno as [Hargs Hchildren].
    destruct arguments; [|discriminate]. cbn [List.length Nat.ltb Nat.leb] in Hrun.
    destruct selectionSet as [selections|].
    + destruct (parseFields this variableValues selections _ query)
        as [[children query1]|e] eqn:E; [|discriminate].
      injection Hrun as _ <-. eapply Hloop; eassumption.
    + now injection Hrun.
Qed.

Lemma parseFields_keeps_query (selections : list SelectionNode)
    (parent : option string) (query : Query) (fields : list string) (query' : Query) :
  forallb no_arguments selections = true ->
  parseFields this variableValues selections parent query = Return (fields, query') ->
  query' = query.
Proof.
  unfold parseFields. generalize (@nil string) as acc.
  revert query. induction selections as [|s rest IH]; intros query acc Hno;
    cbn [parseFields_loop].
  - now intros [= _ <-].
  - cbn [forallb] in Hno. apply andb_true_iff in Hno. destruct Hno as [Hs Hrest].
    destruct (parseFields_selection this variableValues s parent query)
      as [[pushed query1]|e] eqn:E; [|discriminate].
    apply (parseFields_selection_keeps_query s Hs) in E. subst query1.
    now apply IH.
Qed.

(** X6.  When no field of the selection tree carries arguments, planning
    leaves the query as the sanitizer made it: no [deep] is created and
    none is changed. *)
Theorem parseFields_without_arguments (selections : list SelectionNode)
    (parent : option string) (query : Query) (fields : list string) (query' : Query) :
  forallb no_arguments selections = true ->
  parseFields this variableValues selections parent query = Return (fields, query') ->
  query' = query.
Proof. apply parseFields_keeps_query. Qed.


(** X7.  A fragment spread is passed over: the fields of a named fragment
    give no path and no deep block, wherever the spread stands. *)
Theorem parseFields_ignores_fragment_spreads (name : string)
    (before after : list SelectionNode) (parent : option string) (query : Query) :
  parseFields this variableValues (before ++ FragmentSpread name :: after) parent query
  = parseFields this variableValues (before ++ after) parent query.
Proof.
  unfold parseFields. rewrite !parseFields_loop_app.
  destruct (parseFields_loop (parseFields_selection this variableValues)
              before parent query []) as [[fields query']|e]; [|reflexivity].
  cbn. now rewrite app_nil_r.
Qed.

(** X8.  An inline fragment without a type condition makes [getData]
    throw before any read is handed to a service: the exception is the one
    an earlier selection threw, or else the [TypeError] of reading [name]
    of the missing type condition. *)
Theorem getData_untyped_fragment_throws (collection : string)
    (before after selectionSet : list SelectionNode) (argsArray : list ArgumentNode)
    (w : World) :
  exists e,
    getData this collection (before ++ InlineFragment None selectionSet :: after)
      argsArray variableValues w = (Throw e, w)
    /\ (forall fields query,
          parseFields this variableValues before None
            (sanitizeQuery (parseArgs argsArray variableValues) this.(accountability))
          = Return (fields, query) ->
          e = TypeError "Cannot read property 'name' of undefined").
Proof.
  unfold getData, parseFields. rewrite parseFields_loop_app.
  destruct (parseFields_loop (parseFields_selection this variableValues) before None
              (sanitizeQuery (parseArgs argsArray variableValues) this.(accountability)) [])
    as [[fields query]|e] eqn:E.
  - exists (TypeError "Cannot read property 'name' of undefined").
    split; [reflexivity | auto].
  - exists e. split; [reflexivity | discriminate].
Qed.

End PlannerTrees.

Lemma parseFields_paths_extend_parent_example :
  "a" <> ""
  /\ Forall (extends "a") [ "a.b"; "a.c" ].
Proof.
  assert ("a" <> "") as Hne by discriminate.
  split; [exact Hne|].
  exact (proj1 (parseFields_paths_extend_parent (ext := Example.collaborators)
                  Example.service []
                  [ FieldNode "b" [] None; FieldNode "c" [] None ] "a" []
                  [ "a.b"; "a.c" ] [] Hne eq_refl)).
Defined.

Lemma parseFields_root_fragment_paths_example :
  startsWith "pages" "__" = false
  /\ Forall (extends "undefined:pages") [ "undefined:pages.id" ].
Proof.
  split; [reflexivity|].
  exact (parseFields_root_fragment_paths (ext := Example.collaborators)
           Example.service [] "pages" [ FieldNode "id" [] None ] []
           [ "undefined:pages.id" ] [] eq_refl eq_refl).
Defined.

Lemma parseFields_without_arguments_example :
  forallb no_arguments Example.selection_a_b_c = true
  /\ exists fields query',
       parseFields (ext := Example.collaborators) Example.service []
         Example.selection_a_b_c None [ ("limit", JNumber 3) ]
       = Return (fields, query')
       /\ query' = [ ("limit", JNumber 3) ].
Proof.
  split; [reflexivity|].
  destruct (parseFields (ext := Example.collaborators) Example.service []
              Example.selection_a_b_c None [ ("limit", JNumber 3) ])
    as [[fields query']|e] eqn:Hrun; [|vm_compute in Hrun; discriminate Hrun].
  exists fields, query'. split; [reflexivity|].
  exact (parseFields_without_arguments (ext := Example.collaborators)
           Example.service [] Example.selection_a_b_c None [ ("limit", JNumber 3) ]
           fields query' eq_refl Hrun).
Defined.

Lemma getData_untyped_fragment_throws_example :
  parseFields (ext := Example.collaborators) Example.service [] [] None
    (sanitizeQuery (Collaborators := Example.collaborators) (parseArgs [] [])
       Example.service.(accountability)) = Return ([], [])
  /\ getData (ext := Example.collaborators) Example.service "posts"
       ([] ++ InlineFragment None [ FieldNode "id" [] None ] :: [ FieldNode "title" [] None ])
       [] [] Example.world0
     = (Throw (TypeError "Cannot read property 'name' of undefined"), Example.world0).
Proof.
  split; [reflexivity|].
  destruct (getData_untyped_fragment_throws (ext := Example.collaborators)
              Example.service [] "posts" [] [ FieldNode "title" [] None ]
              [ FieldNode "id" [] None ] [] Example.world0) as [e [Hrun He]].
  rewrite Hrun. now rewrite (He [] [] eq_refl).
Defined.

(* ================================================================== *)
(** ** Union resolution, over every response path *)

Lemma path_keys_from (keys : list PathKey) (prev : Path) :
  path_keys (fold_left (fun prev key => MkPath (Some prev) key) keys prev)
  = rev keys ++ path_keys prev.
Proof.
  revert prev. induction keys as [|key keys IH]; intros prev; cbn [fold_left rev].
  - reflexivity.
  - rewrite IH. cbn [path_keys]. now rewrite <- app_assoc.
Qed.

Lemma path_keys_response_path (root : PathKey) (keys : list PathKey) :
  rev (path_keys (response_path root keys)) = keys.
Proof.
  unfold response_path. rewrite path_keys_from. cbn [path_keys].
  rewrite app_nil_r. apply rev_involutive.
Qed.

Lemma Array_slice_inner (A : Type) (a : list A) :
  Array_slice a 1 (-1) = removelast (tl a).
Proof.
  unfold Array_slice. destruct a as [|x a]; [reflexivity|].
  cbn [tl List.length].
  change (1 <? 0)%Z with false. change (-1 <? 0)%Z with true. cbv iota.
  replace (Z.to_nat (Z.min 1 (Z.of_nat (S (List.length a))))) with 1%nat by lia.
  replace (Z.to_nat
             (Z.max
                (Z.max (Z.of_nat (S (List.length a)) + -1) 0
                 - Z.min 1 (Z.of_nat (S (List.length a)))) 0))
    with (pred (List.length a)) by lia.
  cbn [skipn]. symmetry. apply removelast_firstn_len.
Qed.

Lemma js_read_run (v : JSValue) (k : PathKey) (w : World) :
  snd (js_read v k w) = w
  /\ forall e, fst (js_read v k w) = Throw e -> exists message, e = TypeError message.
Proof.
  unfold js_read, throw, ret. destruct v; cbn [fst snd]; split; try reflexivity;
    intros e He; try discriminate; injection He as <-; eauto.
Qed.

Lemma js_read_walk_run (keys : list PathKey) (v : JSValue) (w : World) :
  snd (foldM js_read keys v w) = w
  /\ forall e, fst (foldM js_read keys v w) = Throw e -> exists message, e = TypeError message.
Proof.
  revert v. induction keys as [|key keys IH]; intros v; cbn [foldM].
  - unfold ret. cbn. split; [reflexivity | discriminate].
  - unfold bind. destruct (js_read_run v key w) as [Hw He].
    destruct (js_read v key w) as [[v'|e] w1]; cbn [fst snd] in *; subst w1.
    + apply IH.
    + split; [reflexivity|]. intros e' [= <-]. now apply He.
Qed.

(** X9.  On the response path of a field, [resolveType] reads the
    discriminator from the value found by walking [context.data] along
    the keys of the path without the key of the root field, the first key
    below it and the last key: two keys fewer than the path has below the
    root field. *)
Theorem resolveType_walks_inner_keys (types : list OutputType)
    (one_collection_field : option string) (context_data : JSValue)
    (root : PathKey) (keys : list PathKey) (w : World) :
  resolveType types one_collection_field context_data (response_path root keys) w
  = (parent <- foldM js_read (removelast (tl keys)) context_data ;;
     type <- js_read parent (KeyString (key_of one_collection_field)) ;;
     ret (find (name_is type) types)) w
  /\ List.length (removelast (tl keys)) = (List.length keys - 2)%nat.
Proof.
  split.
  - unfold resolveType. now rewrite path_keys_response_path, Array_slice_inner.
  - rewrite removelast_firstn_len, length_firstn.
    destruct keys as [|k keys]; [reflexivity|]. cbn [tl List.length]. lia.
Qed.

(** X10.  [resolveType] hands no read to a service and logs nothing.  A
    type it returns is one of the member types of the union; when it
    throws, it throws a [TypeError]. *)
Theorem resolveType_returns_a_member (types : list OutputType)
    (one_collection_field : option string) (context_data : JSValue) (info_path : Path)
    (w : World) :
  snd (resolveType types one_collection_field context_data info_path w) = w
  /\ match fst (resolveType types one_collection_field context_data info_path w) with
     | Return (Some t) => In t types /\ type_name t <> None
     | Return None => True
     | Throw e => exists message, e = TypeError message
     end.
Proof.
  unfold resolveType, bind.
  destruct (js_read_walk_run
              (Array_slice (rev (path_keys info_path)) 1 (-1)) context_data w)
    as [Hw He].
  destruct (foldM js_read (Array_slice (rev (path_keys info_path)) 1 (-1)) context_data w)
    as [[parent|e] w1]; cbn [fst snd] in *; subst w1.
  - destruct (js_read_run parent (KeyString (key_of one_collection_field)) w)
      as [Hw' He'].
    destruct (js_read parent (KeyString (key_of one_collection_field)) w)
      as [[type|e] w1]; cbn [fst snd] in *; subst w1.
    + unfold ret. cbn [fst snd]. split; [reflexivity|].
      destruct (find (name_is type) types) as [t|] eqn:F; [|exact I].
      apply find_some in F. destruct F as [Hin Hname]. split; [exact Hin|].
      unfold name_is in Hname. destruct (type_name t); [discriminate | discriminate].
    + split; [reflexivity | now apply He'].
  - split; [reflexivity | now apply He].
Qed.

(* ================================================================== *)
(** ** Members of the compiled types, in order *)

Section MembersInOrder.
Context {utils : SchemaUtils}.

Lemma fieldsObject_assign_cases (self schema : SchemaOverview) (c : Collection)
    (acc : JSObj FieldConfig) (f : Field) (w : World)
    (acc' : JSObj FieldConfig) (w' : World) :
  fieldsObject_assign self schema c acc f w = (Return acc', w') ->
  (exists config, acc' = js_set acc f.(field) config)
  \/ (acc' = acc
      /\ exists relation,
           relationForField self.(relations) c.(collection) f.(field) = Some relation
           /\ getRelationType relation c.(collection) f.(field) = None).
Proof.
  intros H. apply fieldsObject_assign_run in H. destruct H as [_ H].
  destruct (relationForField _ _ _) as [relation|].
  - destruct (getRelationType _ _ _) as [[| |]|] eqn:E.
    + destruct H as [-> _]. eauto.
    + destruct H as [-> _]. eauto.
    + destruct H as [allowed [_ [-> _]]]. eauto.
    + right. split; [exact H|]. exists relation. auto.
  - eauto.
Qed.

(** The loop of the object-type thunk, for distinct names that are not yet
    keys: the keys it adds are the names of the exposed fields, in order,
    and each exposed field was given a configuration of its own. *)
Lemma objectFields_loop_order (self schema : SchemaOverview) (c : Collection)
    (l : list Field) :
  forall (acc : JSObj FieldConfig) (w : World) (res : JSObj FieldConfig) (w' : World),
    NoDup (map field l) ->
    (forall k, In k (Object_keys acc) -> ~ In k (map field l)) ->
    foldM (fieldsObject_step self schema c) l acc w = (Return res, w') ->
    Object_keys res = Object_keys acc ++ map field (filter exposed l)
    /\ forall f relation,
         In f l -> exposed f = true ->
         relationForField self.(relations) c.(collection) f.(field) = Some relation ->
         getRelationType relation c.(collection) f.(field) <> None.
Proof.
  induction l as [|f l IH]; intros acc w res w' Hnd Hfresh; cbn [foldM].
  - unfold ret. intros [= <- <-]. cbn [filter map]. rewrite app_nil_r.
    split; [reflexivity | contradiction].
  - unfold bind.
    destruct (fieldsObject_step self schema c acc f w) as [[acc1|e] w1] eqn:E;
      [|discriminate].
    intros Hrun. inversion Hnd as [|? ? Hnotin Hnd']; subst.
    assert (~ In f.(field) (Object_keys acc)) as Hnew.
    { intros Hin. apply (Hfresh _ Hin). now left. }
    apply fieldsObject_step_run in E.
    destruct E as [[Hres [-> _]] | [Hres [_ [assigned [config [Ha [Hg ->]]]]]]].
    + assert (exposed f = false) as Hhidden by (unfold exposed; now rewrite Hres).
      assert (forall k, In k (Object_keys acc) -> ~ In k (map field l)) as Hfresh'.
      { intros k Hk Hin. apply (Hfresh k Hk). now right. }
      destruct (IH acc _ _ _ Hnd' Hfresh' Hrun) as [Hkeys Hclass].
      cbn [filter]. rewrite Hhidden. split; [exact Hkeys|].
      intros g relation [<- | Hg] Hexp; [congruence | now apply Hclass].
    + assert (exposed f = true) as Hshown by (unfold exposed; now rewrite Hres).
      destruct (fieldsObject_assign_cases _ _ _ _ _ _ _ _ Ha)
        as [[config0 ->] | [-> [relation [Hrel Hnone]]]].
      * assert (Object_keys
                  (js_set (js_set acc f.(field) config0) f.(field)
                     {| config_type := config.(config_type);
                        config_args := config.(config_args);
                        description := f.(note) |})
                = Object_keys acc ++ [ f.(field) ]) as Hk1.
        { rewrite js_set_keys_present by (apply js_set_keys; now left).
          now apply js_set_keys_fresh. }
        assert (forall k,
                   In k (Object_keys
                           (js_set (js_set acc f.(field) config0) f.(field)
                              {| config_type := config.(config_type);
                                 config_args := config.(config_args);
                                 description := f.(note) |})) ->
                   ~ In k (map field l)) as Hfresh'.
        { intros k Hk Hin. rewrite Hk1 in Hk. apply in_app_iff in Hk.
          destruct Hk as [Hold | [<- | []]].
          - apply (Hfresh k Hold). now right.
          - now apply Hnotin. }
        destruct (IH _ _ _ _ Hnd' Hfresh' Hrun) as [Hkeys Hclass].
        cbn [filter]. rewrite Hshown. cbn [map].
        split; [rewrite Hkeys, Hk1, <- app_assoc; reflexivity|].
        intros g relation [<- | Hin_g] Hexp Hrel; [|now apply (Hclass g relation)].
        apply fieldsObject_assign_run in Ha. destruct Ha as [_ Ha].
        rewrite Hrel in Ha. intros Hnone. rewrite Hnone in Ha.
        apply Hnew. rewrite <- Ha. apply js_set_keys. now left.
      * exfalso. apply Hnew. apply js_get_keys. congruence.
Qed.

(** X11.  In an object type whose thunk ran to its end, a field without
    a relation is a scalar without arguments: the identifier type when it
    is the primary field of the collection, the type the mapping table
    gives for its kind otherwise; its description is the note of the
    field. *)
Theorem object_scalar_field (self schema : SchemaOverview) (c : Collection) (f : Field)
    (w : World) (fieldsObject : JSObj FieldConfig) (w' : World) :
  distinct (field_names c) = true ->
  In f (Object_values c.(fields)) ->
  startsWith f.(field) "__" = false ->
  relationForField self.(relations) c.(collection) f.(field) = None ->
  objectFields self schema c w = (Return fieldsObject, w') ->
  js_get fieldsObject f.(field)
  = Some {| config_type :=
              OutScalar (if String.eqb c.(primary) f.(field) then GraphQLID
                         else getGraphQLType f.(type));
            config_args := None;
            description := f.(note) |}.
Proof.
  intros Hd Hin Hres Hrel Hrun. unfold objectFields in Hrun.
  destruct (objectFields_loop_written self schema c
              (fun config =>
                 config = {| config_type := OutScalar (fieldType c f);
                             config_args := None;
                             description := f.(note) |})
              (Object_values c.(fields)) [] w fieldsObject w' f)
    as [config [Hget ->]]; auto using distinct_NoDup.
  intros acc0 w0 acc1 w1 Hstep. apply fieldsObject_step_run in Hstep.
  destruct Hstep as [[Habs _] | [_ [_ [assigned [config [Ha [Hg ->]]]]]]];
    [congruence|].
  rewrite js_get_set_eq. eexists. split; [reflexivity|].
  apply fieldsObject_assign_run in Ha. destruct Ha as [_ Ha]. rewrite Hrel in Ha.
  subst assigned. rewrite js_get_set_eq in Hg. injection Hg as <-. reflexivity.
Qed.

(** X12.  When no field of the collection bears the name of an array
    index, the members of an object type whose thunk ran to its end are
    the fields of the collection whose names are not reserved, in the
    order of the fields, and each member carries the note of its field as
    its description. *)
Theorem object_members_in_field_order (self schema : SchemaOverview) (c : Collection)
    (w : World) (fieldsObject : JSObj FieldConfig) (w' : World) :
  distinct (field_names c) = true ->
  no_index_key (field_names c) = true ->
  objectFields self schema c w = (Return fieldsObject, w') ->
  Object_keys fieldsObject = map field (filter exposed (Object_values c.(fields)))
  /\ forall f,
       In f (Object_values c.(fields)) -> exposed f = true ->
       exists config,
         js_get fieldsObject f.(field) = Some config
         /\ config.(description) = f.(note).
Proof.
  intros Hd _ Hrun. unfold objectFields in Hrun. split.
  - destruct (objectFields_loop_order self schema c (Object_values c.(fields))
                [] w fieldsObject w') as [Hkeys _]; auto using distinct_NoDup.
  - intros f Hin Hexp.
    apply (objectFields_loop_written self schema c
             (fun config => config.(description) = f.(note))
             (Object_values c.(fields)) [] w fieldsObject w' f);
      auto using distinct_NoDup.
    intros acc0 w0 acc1 w1 Hstep. apply fieldsObject_step_run in Hstep.
    destruct Hstep as [[Habs _] | [_ [_ [assigned [config [Ha [Hg ->]]]]]]].
    + unfold exposed in Hexp. rewrite Habs in Hexp. discriminate.
    + rewrite js_get_set_eq. eexists. split; reflexivity.
Qed.

(** The loop of the filter-type thunk only adds keys, after those the
    object has, and each key it adds is the name of a field that is
    neither reserved nor left without a member. *)
Lemma filterFields_loop_order (schema : SchemaOverview) (collectionName : string)
    (c : Collection) (l : list Field) :
  forall acc,
  exists extra,
    Object_keys (fold_left (filterFields_step schema collectionName c) l acc)
    = Object_keys acc ++ extra
    /\ forall k, In k extra ->
         exists f, In f l /\ f.(field) = k /\ exposed f = true
                   /\ (relationForField schema.(relations) collectionName k = None
                       \/ exists relation,
                            relationForField schema.(relations) collectionName k
                            = Some relation
                            /\ (getRelationType relation collectionName k = Some m2o
                                \/ getRelationType relation collectionName k = Some o2m)).
Proof.
  induction l as [|f l IH]; intros acc; cbn [fold_left].
  - exists []. rewrite app_nil_r. split; [reflexivity | contradiction].
  - destruct (IH (filterFields_step schema collectionName c acc f))
      as [extra [Hkeys Hextra]].
    assert (exists added,
               Object_keys (filterFields_step schema collectionName c acc f)
               = Object_keys acc ++ added
               /\ forall k, In k added ->
                    f.(field) = k /\ exposed f = true
                    /\ (relationForField schema.(relations) collectionName k = None
                        \/ exists relation,
                             relationForField schema.(relations) collectionName k
                             = Some relation
                             /\ (getRelationType relation collectionName k = Some m2o
                                 \/ getRelationType relation collectionName k = Some o2m)))
      as [added [Hadded Hwho]].
    { unfold filterFields_step, exposed.
      destruct (startsWith f.(field) "__") eqn:Hres.
      - exists []. rewrite app_nil_r. split; [reflexivity | contradiction].
      - destruct (relationForField schema.(relations) collectionName f.(field))
          as [relation|] eqn:Hrel.
        + destruct (getRelationType relation collectionName f.(field)) as [[| |]|] eqn:Hty.
          * destruct (js_set_keys_grow _ acc f.(field)
                        (filterTypes_ref schema (key_of relation.(one_collection))))
              as [added [Hk Hk']].
            exists added. split; [exact Hk|]. intros k Hin. apply Hk' in Hin. subst k.
            repeat split; eauto.
          * destruct (js_set_keys_grow _ acc f.(field)
                        (filterTypes_ref schema relation.(many_collection)))
              as [added [Hk Hk']].
            exists added. split; [exact Hk|]. intros k Hin. apply Hk' in Hin. subst k.
            repeat split; eauto.
          * exists []. rewrite app_nil_r. split; [reflexivity | contradiction].
          * exists []. rewrite app_nil_r. split; [reflexivity | contradiction].
        + destruct (js_set_keys_grow _ acc f.(field) (filter_operators collectionName c f))
            as [added [Hk Hk']].
          exists added. split; [exact Hk|]. intros k Hin. apply Hk' in Hin. subst k.
          repeat split; auto. }
    exists (added ++ extra). rewrite Hkeys, Hadded, <- app_assoc. split; [reflexivity|].
    intros k Hin. apply in_app_iff in Hin. destruct Hin as [Hin | Hin].
    + destruct (Hwho k Hin) as [Hk [Hexp Hkind]]. exists f. cbn [In]. auto.
    + destruct (Hextra k Hin) as [g [Hg Hrest]]. exists g. cbn [In]. auto.
Qed.

(** X13.  In a schema none of whose fields bears the name of an array
    index, every filter type starts with the members [_and] and [_or], in
    this order, also when a field of the collection is itself called
    [_and] or [_or]; every member after them bears the name of a field of
    the collection that is not reserved and is a scalar, a many-to-one or
    a one-to-many field. *)
Theorem filter_members_after_boolean (schema : SchemaOverview) (name : string)
    (filterType : GraphQLInputObjectType) :
  forallb (fun c => no_index_key (field_names c)) (Object_values schema.(collections))
  = true ->
  js_get (getFilterArgs schema) name = Some filterType ->
  exists c extra,
    filterType.(input_fields) = filterFields schema name c
    /\ Object_keys filterType.(input_fields) = "_and" :: "_or" :: extra
    /\ forall k, In k extra ->
         exists f, In f (Object_values c.(fields)) /\ f.(field) = k /\ exposed f = true
                   /\ (relationForField schema.(relations) name k = None
                       \/ exists relation,
                            relationForField schema.(relations) name k = Some relation
                            /\ (getRelationType relation name k = Some m2o
                                \/ getRelationType relation name k = Some o2m)).
Proof.
  intros _ Hget. destruct (getFilterArgs_entry schema name filterType Hget) as [c Hc].
  destruct (filterFields_loop_order schema name c (Object_values c.(fields))
              [ ("_and", InList (filterTypes_ref schema name));
                ("_or", InList (filterTypes_ref schema name)) ])
    as [extra [Hkeys Hextra]].
  exists c, extra. split; [exact Hc|]. split; [|exact Hextra].
  rewrite Hc. exact Hkeys.
Qed.

End MembersInOrder.

Lemma object_scalar_field_example :
  distinct (field_names Example.posts) = true
  /\ relationForField Example.blog.(relations) "posts" "id" = None
  /\ exists fieldsObject w,
       objectFields (utils := Example.utils) Example.blog Example.blog Example.posts
         Example.world0 = (Return fieldsObject, w)
       /\ js_get fieldsObject "id"
          = Some {| config_type := OutScalar GraphQLID; config_args := None;
                    description := None |}.
Proof.
  split; [reflexivity|]. split; [reflexivity|].
  destruct (objectFields (utils := Example.utils) Example.blog Example.blog Example.posts
              Example.world0) as [[fieldsObject|e] w] eqn:Hrun;
    [|vm_compute in Hrun; discriminate Hrun].
  exists fieldsObject, w. split; [reflexivity|].
  exact (object_scalar_field (utils := Example.utils) Example.blog Example.blog
           Example.posts {| field := "id"; type := "integer"; note := None |}
           Example.world0 fieldsObject w eq_refl
           (or_introl eq_refl) eq_refl eq_refl Hrun).
Defined.

Lemma object_members_in_field_order_example :
  distinct (field_names Example.posts) = true
  /\ no_index_key (field_names Example.posts) = true
  /\ exists fieldsObject w,
       objectFields (utils := Example.utils) Example.blog Example.blog Example.posts
         Example.world0 = (Return fieldsObject, w)
       /\ Object_keys fieldsObject = [ "id"; "title"; "author" ].
Proof.
  split; [reflexivity|]. split; [reflexivity|].
  destruct (objectFields (utils := Example.utils) Example.blog Example.blog Example.posts
              Example.world0) as [[fieldsObject|e] w] eqn:Hrun;
    [|vm_compute in Hrun; discriminate Hrun].
  exists fieldsObject, w. split; [reflexivity|].
  exact (proj1 (object_members_in_field_order (utils := Example.utils)
                  Example.blog Example.blog Example.posts Example.world0
                  fieldsObject w eq_refl eq_refl Hrun)).
Defined.

Lemma filter_members_after_boolean_example :
  forallb (fun c => no_index_key (field_names c)) (Object_values Example.blog.(collections))
  = true
  /\ exists filterType,
    js_get (getFilterArgs (utils := Example.utils) Example.blog) "rules" = Some filterType
    /\ exists extra, Object_keys filterType.(input_fields) = "_and" :: "_or" :: extra.
Proof.
  split; [reflexivity|].
  destruct (js_get (getFilterArgs (utils := Example.utils) Example.blog) "rules")
    as [filterType|] eqn:Hget; [|vm_compute in Hget; discriminate Hget].
  exists filterType. split; [reflexivity|].
  destruct (filter_members_after_boolean (utils := Example.utils) Example.blog "rules"
              filterType eq_refl Hget) as [c [extra [_ [Hkeys _]]]].
  exists extra. exact Hkeys.
Defined.

(* ================================================================== *)
(** ** Root fields of the compiled schema *)

Lemma substring_all (s : string) : String.substring 0 (String.length s) s = s.
Proof. induction s as [|c s IH]; simpl; [reflexivity | now rewrite IH]. Qed.

Lemma substring_from_append (p rest : string) :
  substring_from (String.length p) (p +++ rest) = rest.
Proof.
  unfold substring_from. induction p as [|c p IH]; simpl.
  - rewrite Nat.sub_0_r. apply substring_all.
  - exact IH.
Qed.

Lemma prefix_split (p s : string) :
  String.prefix p s = true -> s = p +++ substring_from (String.length p) s.
Proof.
  revert s. induction p as [|c p IH]; intros s H.
  - cbn [String.length String.append]. unfold substring_from.
    rewrite Nat.sub_0_r. symmetry. apply substring_all.
  - destruct s as [|d s]; [discriminate|]. simpl in H.
    destruct (ascii_dec c d) as [<-|]; [|discriminate].
    apply IH in H. unfold substring_from in *. simpl. now rewrite <- H.
Qed.

Section KeyedLoop.
Context {A T : Type} (key : A -> string) (step : JSObj T -> A -> JSObj T).
Hypothesis frame :
  forall a k acc, k <> key a -> js_get (step acc a) k = js_get acc k.

Lemma keyed_keeps (l : list A) (acc : JSObj T) (k : string) :
  ~ In k (map key l) -> js_get (fold_left step l acc) k = js_get acc k.
Proof.
  revert acc. induction l as [|a l IH]; intros acc Hnotin; cbn [fold_left].
  - reflexivity.
  - cbn [map In] in Hnotin. rewrite IH by tauto. apply frame. intros ->. tauto.
Qed.

(** With distinct keys, the entry of an item is what its own turn made of
    the entry the object had at the start. *)
Lemma keyed_update (l : list A) (acc : JSObj T) (a : A) (before after : option T) :
  NoDup (map key l) ->
  In a l ->
  js_get acc (key a) = before ->
  (forall acc', js_get acc' (key a) = before -> js_get (step acc' a) (key a) = after) ->
  js_get (fold_left step l acc) (key a) = after.
Proof.
  intros Hnd Hin Hbefore Hturn. revert acc Hbefore.
  induction l as [|b l IH]; intros acc Hbefore; [contradiction|].
  cbn [fold_left]. cbn [map] in Hnd. apply NoDup_cons_iff in Hnd.
  destruct Hnd as [Hnotin Hnd']. destruct Hin as [-> | Hin].
  - rewrite keyed_keeps by assumption. now apply Hturn.
  - apply IH; auto. rewrite frame; [assumption|].
    intros Heq. apply Hnotin. rewrite <- Heq. now apply in_map.
Qed.

End KeyedLoop.

Section RootFields.
Context {utils : SchemaUtils}.
Variable schema : SchemaOverview.

Lemma graphqlSchema_lookup (c : Collection) :
  distinct (collection_names schema) = true ->
  In c (Object_values schema.(collections)) ->
  js_get (graphqlSchema schema) c.(collection)
  = if has_fields c
    then Some {| section_type := OutObject c.(collection);
                 section_args :=
                   shared_args ++
                   [ ("filter",
                      {| arg_name := Some (c.(collection) +++ "_filter");
                         arg_type := filterTypes_ref schema c.(collection) |}) ] |}
    else None.
Proof.
  intros Hd Hin. unfold graphqlSchema.
  apply (keyed_update collection) with (before := None);
    auto using distinct_NoDup.
  - intros a k acc Hne. destruct (Nat.eqb _ 0); [reflexivity|].
    apply js_get_set_neq. congruence.
  - intros acc' Hnone. unfold has_fields.
    destruct (Nat.eqb (List.length (Object_keys c.(fields))) 0); cbn [negb];
      [exact Hnone | apply js_get_set_eq].
Qed.

Lemma graphqlSchema_NoDup : NoDup (Object_keys (graphqlSchema schema)).
Proof.
  unfold graphqlSchema. generalize (Object_values schema.(collections)) as l.
  assert (NoDup (Object_keys (@nil (string * SchemaSection)))) as Hnil by constructor.
  revert Hnil. generalize (@nil (string * SchemaSection)) as acc.
  intros acc Hacc l. revert acc Hacc.
  induction l as [|c l IH]; intros acc Hacc; cbn [fold_left]; [exact Hacc|].
  apply IH. destruct (Nat.eqb _ 0); [exact Hacc | now apply js_set_NoDup].
Qed.

Lemma schemaWithLists_NoDup : NoDup (Object_keys (schemaWithLists schema)).
Proof.
  unfold schemaWithLists. generalize (Object_values schema.(collections)) as l.
  pose proof graphqlSchema_NoDup as Hstart. revert Hstart.
  generalize (graphqlSchema schema) as acc.
  intros acc Hacc l. revert acc Hacc.
  induction l as [|c l IH]; intros acc Hacc; cbn [fold_left]; [exact Hacc|].
  apply IH. destruct (Nat.eqb _ 0); [exact Hacc|].
  destruct c.(singleton); [exact Hacc|].
  destruct (js_get acc c.(collection)); [now apply js_set_NoDup | exact Hacc].
Qed.

Lemma schemaWithLists_lookup (c : Collection) :
  distinct (collection_names schema) = true ->
  In c (Object_values schema.(collections)) ->
  js_get (schemaWithLists schema) c.(collection)
  = if has_fields c
    then Some {| section_type :=
                   if c.(singleton) then OutObject c.(collection)
                   else OutList (OutObject c.(collection));
                 section_args :=
                   shared_args ++
                   [ ("filter",
                      {| arg_name := Some (c.(collection) +++ "_filter");
                         arg_type := filterTypes_ref schema c.(collection) |}) ] |}
    else None.
Proof.
  intros Hd Hin. unfold schemaWithLists.
  apply (keyed_update collection) with (before := js_get (graphqlSchema schema) c.(collection));
    auto using distinct_NoDup.
  - intros a k acc Hne. destruct (Nat.eqb _ 0); [reflexivity|].
    destruct a.(singleton); [reflexivity|].
    destruct (js_get acc a.(collection)); [|reflexivity].
    apply js_get_set_neq. congruence.
  - intros acc' Hacc. rewrite graphqlSchema_lookup in Hacc by assumption.
    unfold has_fields in *.
    destruct (Nat.eqb (List.length (Object_keys c.(fields))) 0); cbn [negb] in *;
      [exact Hacc|].
    destruct c.(singleton); [exact Hacc|].
    rewrite Hacc. now rewrite js_get_set_eq.
Qed.

Lemma items_fields_lookup (o acc : JSObj SchemaSection) (k : string) :
  NoDup (Object_keys o) ->
  js_get
    (fold_left
       (fun fields '(key, section) =>
          if startsWith key "directus_" then fields else js_set fields key section)
       o acc) k
  = if startsWith k "directus_" then js_get acc k
    else match js_get o k with
         | Some section => Some section
         | None => js_get acc k
         end.
Proof.
  revert acc. induction o as [|[key section] o IH]; intros acc Hnd; cbn [fold_left js_get].
  - now destruct (startsWith k "directus_").
  - cbn [Object_keys map fst] in Hnd. inversion Hnd as [|? ? Hnotin Hnd']; subst.
    rewrite IH by assumption.
    destruct (startsWith k "directus_") eqn:Hk.
    + destruct (startsWith key "directus_") eqn:Hkey; [reflexivity|].
      apply js_get_set_neq. intros ->. congruence.
    + destruct (String.eqb key k) eqn:E.
      * apply String.eqb_eq in E. subst key. rewrite Hk.
        destruct (js_get o k) eqn:G.
        -- exfalso. apply Hnotin. apply js_get_keys. congruence.
        -- apply js_get_set_eq.
      * destruct (js_get o k); [reflexivity|].
        destruct (startsWith key "directus_"); [reflexivity|].
        apply js_get_set_neq. now apply String.eqb_neq.
Qed.

Lemma system_fields_lookup (o acc : JSObj SchemaSection) (k : string) :
  NoDup (Object_keys o) ->
  js_get
    (fold_left
       (fun fields '(key, section) =>
          if negb (startsWith key "directus_") then fields
          else js_set fields (substring_from 9 key) section)
       o acc) k
  = match js_get o ("directus_" +++ k) with
    | Some section => Some section
    | None => js_get acc k
    end.
Proof.
  assert (forall rest, startsWith ("directus_" +++ rest) "directus_" = true) as Hstarts
    by (intros rest; apply (prefix_append "directus_")).
  revert acc. induction o as [|[key section] o IH]; intros acc Hnd; cbn [fold_left js_get].
  - reflexivity.
  - cbn [Object_keys map fst] in Hnd. inversion Hnd as [|? ? Hnotin Hnd']; subst.
    rewrite IH by assumption.
    destruct (String.eqb key ("directus_" +++ k)) eqn:E.
    + apply String.eqb_eq in E. subst key. rewrite Hstarts. cbn [negb].
      pose proof (substring_from_append "directus_" k) as Hrest.
      cbn [String.length] in Hrest. rewrite Hrest.
      destruct (js_get o ("directus_" +++ k)) eqn:G.
      * exfalso. apply Hnotin. apply js_get_keys. congruence.
      * apply js_get_set_eq.
    + destruct (js_get o ("directus_" +++ k)); [reflexivity|].
      destruct (startsWith key "directus_") eqn:Hkey; cbn [negb]; [|reflexivity].
      apply js_get_set_neq. intros Heq.
      apply String.eqb_neq in E. apply E.
      pose proof (prefix_split "directus_" key Hkey) as Hsplit.
      cbn [String.length] in Hsplit. rewrite Hsplit. now rewrite Heq.
Qed.

Lemma queryBase_items (k : string) :
  js_get (queryBase_fields schema items) k
  = if startsWith k "directus_" then None else js_get (schemaWithLists schema) k.
Proof.
  unfold queryBase_fields. rewrite items_fields_lookup by apply schemaWithLists_NoDup.
  destruct (startsWith k "directus_"); [reflexivity|].
  now destruct (js_get (schemaWithLists schema) k).
Qed.

Lemma queryBase_system (k : string) :
  js_get (queryBase_fields schema system) k
  = js_get (schemaWithLists schema) ("directus_" +++ k).
Proof.
  unfold queryBase_fields. rewrite system_fields_lookup by apply schemaWithLists_NoDup.
  now destruct (js_get (schemaWithLists schema) ("directus_" +++ k)).
Qed.

(** X14.  The query type of the [items] scope has, under each name that
    does not start with [directus_], the section compiled for the
    collection of that name, and nothing under a name that does.  The
    query type of the [system] scope has, under each name, the section
    compiled for the collection called [directus_] and that name. *)
Theorem query_fields_by_scope :
  (forall k,
      js_get (getDynamicQuerySchema schema items).(query_fields) k
      = if startsWith k "directus_" then None else js_get (schemaWithLists schema) k)
  /\ (forall k,
        js_get (getDynamicQuerySchema schema system).(query_fields) k
        = js_get (schemaWithLists schema) ("directus_" +++ k)).
Proof.
  split; intros k; cbn [getDynamicQuerySchema query_fields];
    [apply queryBase_items | apply queryBase_system].
Qed.

(** X15.  A collection that has fields gets one root field, in the scope
    its name belongs to: typed by its object type when it is a singleton
    and by a list of it otherwise, and taking the shared arguments and
    then a [filter] named after the collection and typed by its filter
    type.  In the [system] scope the field goes by the name without the
    prefix, which is the name [resolve] puts the prefix back on. *)
Theorem root_field_of_collection (c : Collection) :
  distinct (collection_names schema) = true ->
  In c (Object_values schema.(collections)) ->
  has_fields c = true ->
  let section :=
    {| section_type :=
         if c.(singleton) then OutObject c.(collection)
         else OutList (OutObject c.(collection));
       section_args :=
         shared_args ++
         [ ("filter",
            {| arg_name := Some (c.(collection) +++ "_filter");
               arg_type := filterTypes_ref schema c.(collection) |}) ] |} in
  (startsWith c.(collection) "directus_" = false ->
   js_get (getDynamicQuerySchema schema items).(query_fields) c.(collection)
   = Some section)
  /\ (startsWith c.(collection) "directus_" = true ->
      js_get (getDynamicQuerySchema schema system).(query_fields)
        (substring_from 9 c.(collection)) = Some section
      /\ "directus_" +++ substring_from 9 c.(collection) = c.(collection)).
Proof.
  intros Hd Hin Hfields section.
  pose proof (schemaWithLists_lookup c Hd Hin) as Hlookup. rewrite Hfields in Hlookup.
  cbn [getDynamicQuerySchema query_fields]. split.
  - intros Hitems. now rewrite queryBase_items, Hitems.
  - intros Hsystem.
    pose proof (prefix_split "directus_" c.(collection) Hsystem) as Hsplit.
    cbn [String.length] in Hsplit. split; [|now symmetry].
    rewrite queryBase_system. now rewrite <- Hsplit.
Qed.

(** X16.  A collection without fields has no object type and no root
    field in either scope, though [getFilterArgs] still builds its filter
    type, with the members [_and] and [_or] alone. *)
Theorem collection_without_fields (name : string) (c : Collection) :
  well_formed schema = true ->
  distinct (collection_names schema) = true ->
  In (name, c) schema.(collections) ->
  has_fields c = false ->
  js_get (graphqlSchema schema) c.(collection) = None
  /\ js_get (getDynamicQuerySchema schema items).(query_fields) c.(collection) = None
  /\ (forall k, "directus_" +++ k = c.(collection) ->
                js_get (getDynamicQuerySchema schema system).(query_fields) k = None)
  /\ js_get (getFilterArgs schema) name
     = Some {| input_name := name +++ "_filter";
               input_fields :=
                 [ ("_and", InList (InFilter name)); ("_or", InList (InFilter name)) ] |}.
Proof.
  intros Hwf Hd Hin Hempty.
  assert (In c (Object_values schema.(collections))) as Hc.
  { unfold Object_values. apply in_map_iff. now exists (name, c). }
  pose proof (graphqlSchema_lookup c Hd Hc) as Hobject. rewrite Hempty in Hobject.
  pose proof (schemaWithLists_lookup c Hd Hc) as Hlookup. rewrite Hempty in Hlookup.
  cbn [getDynamicQuerySchema query_fields].
  split; [exact Hobject|]. split; [|split].
  - rewrite queryBase_items. now destruct (startsWith c.(collection) "directus_").
  - intros k Hk. now rewrite queryBase_system, Hk.
  - rewrite (getFilterArgs_lookup schema name c Hwf Hin). do 2 f_equal.
    unfold has_fields, Object_keys in Hempty. apply negb_false_iff in Hempty.
    apply Nat.eqb_eq in Hempty. rewrite length_map in Hempty.
    apply length_zero_iff_nil in Hempty.
    unfold filterFields, Object_values. rewrite Hempty. cbn [map fold_left].
    unfold filterTypes_ref. now rewrite (in_entries_has _ _ _ _ Hin).
Qed.

End RootFields.

Lemma root_field_of_collection_example :
  distinct (collection_names Example.site) = true
  /\ has_fields Example.directus_users = true
  /\ startsWith "directus_users" "directus_" = true
  /\ js_get (getDynamicQuerySchema Example.site system).(query_fields) "users"
     = Some {| section_type := OutList (OutObject "directus_users");
               section_args :=
                 shared_args ++
                 [ ("filter",
                    {| arg_name := Some "directus_users_filter";
                       arg_type := InFilter "directus_users" |}) ] |}.
Proof.
  split; [reflexivity|]. split; [reflexivity|]. split; [reflexivity|].
  destruct (root_field_of_collection Example.site Example.directus_users eq_refl)
    as [_ Hsystem].
  - cbn. auto.
  - reflexivity.
  - exact (proj1 (Hsystem eq_refl)).
Defined.

Lemma collection_without_fields_example :
  well_formed Example.site = true
  /\ distinct (collection_names Example.site) = true
  /\ has_fields Example.drafts = false
  /\ js_get (getDynamicQuerySchema Example.site items).(query_fields) "drafts" = None
  /\ exists filterType,
       js_get (getFilterArgs (utils := Example.utils) Example.site) "drafts"
       = Some filterType
       /\ Object_keys filterType.(input_fields) = [ "_and"; "_or" ].
Proof.
  split; [reflexivity|]. split; [reflexivity|]. split; [reflexivity|].
  destruct (collection_without_fields (utils := Example.utils) Example.site
              "drafts" Example.drafts eq_refl eq_refl)
    as [_ [Hitems [_ Hfilter]]].
  - cbn. auto.
  - reflexivity.
  - split; [exact Hitems|]. eexists. split; [exact Hfilter | reflexivity].
Defined.

(* ================================================================== *)
(** ** What leaves [execute] and [resolve] *)

Section Requests.
Context {utils : SchemaUtils} {ext : Collaborators}.
Variable this : GraphQLService.

(** Building the schema hands no read to a service, whether the
    constructor returns or throws. *)
Lemma construction_step_calls (self schema : SchemaOverview) (step : ConstructionStep)
    (w : World) :
  (snd (construction_step self schema step w)).(calls) = w.(calls).
Proof.
  destruct step as [name|e]; simpl; [|reflexivity].
  destruct (compiled_collection schema name) as [c|]; [|reflexivity].
  unfold bind, objectFields.
  pose proof (objectFields_loop_calls self schema c (Object_values c.(fields)) [] w) as Hcalls.
  destruct (foldM (fieldsObject_step self schema c) (Object_values c.(fields)) [] w)
    as [[fieldsObject|e] w1]; exact Hcalls.
Qed.

Lemma new_GraphQLSchema_calls (self schema : SchemaOverview) (queryBase : GraphQLSchema)
    (w : World) :
  (snd (new_GraphQLSchema self schema queryBase w)).(calls) = w.(calls)
  /\ forall built, fst (new_GraphQLSchema self schema queryBase w) = Return built ->
                   built = queryBase.
Proof.
  unfold new_GraphQLSchema.
  assert (forall steps u w0,
             (snd (foldM (fun _ step => construction_step self schema step) steps u w0)).(calls)
             = w0.(calls)) as Hloop.
  { induction steps as [|step steps IH]; intros u w0; simpl; [reflexivity|].
    unfold bind. pose proof (construction_step_calls self schema step w0) as Hstep.
    destruct (construction_step self schema step w0) as [[u1|e] w1]; simpl in Hstep.
    - now rewrite IH.
    - exact Hstep. }
  unfold bind. specialize (Hloop (schema_construction queryBase) tt w).
  destruct (foldM (fun _ step => construction_step self schema step)
              (schema_construction queryBase) tt w) as [[u|e] w1]; simpl in *.
  - split; [exact Hloop|]. now intros built [= <-].
  - split; [exact Hloop | discriminate].
Qed.

Lemma getSchema_calls (scope : Scope) (w : World) :
  (snd (getSchema this scope w)).(calls) = w.(calls).
Proof. unfold getSchema. apply new_GraphQLSchema_calls. Qed.

(** C4.  When the schema was built and validation of the document
    against it reports errors, [execute] throws the payload exception
    that carries exactly these errors, and no read was handed to any
    service: the log of reads is the one [execute] found. *)
Theorem execute_rejects_invalid_document (params : GraphQLParams) (scope : Scope) (w : World)
    (schema : GraphQLSchema) (w1 : World) (validationErrors : list Exception) :
  getSchema this scope w = (Return schema, w1) ->
  validate schema params.(document) = Return validationErrors ->
  validationErrors <> [] ->
  fst (execute this params scope w)
  = Throw (InvalidPayloadException "GraphQL validation error." validationErrors)
  /\ (snd (execute this params scope w)).(calls) = w.(calls).
Proof.
  intros Hschema Hvalidate Herrors.
  pose proof (getSchema_calls scope w) as Hcalls. rewrite Hschema in Hcalls.
  unfold execute, bind. rewrite Hschema, Hvalidate.
  destruct validationErrors as [|e errs]; [contradiction|].
  simpl. now split.
Qed.

(** X17.  What [execute] throws is one of four things: the exception the
    construction of the schema ended in, as it is; the exception
    [validate] itself threw, as it is; the payload exception that carries
    the validation errors; or the payload exception that wraps exactly
    what the engine threw while executing a valid document.  Only the
    last can come with a read handed to a service. *)
Theorem execute_exceptions (params : GraphQLParams) (scope : Scope)
    (w : World) (e : Exception) (w' : World) :
  execute this params scope w = (Throw e, w') ->
  (getSchema this scope w = (Throw e, w') /\ w'.(calls) = w.(calls))
  \/ exists schema w1,
       getSchema this scope w = (Return schema, w1)
       /\ w1.(calls) = w.(calls)
       /\ ((validate schema params.(document) = Throw e /\ w' = w1)
           \/ (exists validationErrors,
                  validate schema params.(document) = Return validationErrors
                  /\ validationErrors <> []
                  /\ e = InvalidPayloadException "GraphQL validation error."
                           validationErrors
                  /\ w' = w1)
           \/ (validate schema params.(document) = Return []
               /\ exists err,
                    graphql_execute (section_resolve this scope) schema
                      params.(document) [] params.(variables) params.(operationName) w1
                    = (Throw err, w')
                    /\ e = InvalidPayloadException "GraphQL execution error." [ err ])).
Proof.
  pose proof (getSchema_calls scope w) as Hcalls.
  unfold execute, bind.
  destruct (getSchema this scope w) as [[schema|e0] w1]; simpl in Hcalls.
  - intros Hrun. right. exists schema, w1. split; [reflexivity|]. split; [exact Hcalls|].
    destruct (validate schema params.(document)) as [[|v errs]|e1].
    + cbn [List.length Nat.ltb Nat.leb] in Hrun. right. right. split; [reflexivity|].
      destruct (graphql_execute (section_resolve this scope) schema
                  params.(document) [] params.(variables) params.(operationName) w1)
        as [[result|err] w2]; [discriminate|].
      injection Hrun as <- <-. now exists err.
    + cbn [List.length Nat.ltb Nat.leb] in Hrun. unfold throw in Hrun.
      injection Hrun as <- <-. right. left. exists (v :: errs).
      repeat split. discriminate.
    + unfold throw in Hrun. injection Hrun as <- <-. left. now split.
  - intros [= <- <-]. left. now split.
Qed.

(** The reads [getData] hands out: none, or one, to the generic item
    service of the collection, with the stripping of fields off. *)
Lemma getData_reads (collection : string) (selections : list SelectionNode)
    (argsArray : list ArgumentNode) (variableValues : JSObj JSValue) (w : World) :
  (snd (getData this collection selections argsArray variableValues w)).(warnings)
  = w.(warnings)
  /\ ((snd (getData this collection selections argsArray variableValues w)).(calls)
      = w.(calls)
      \/ exists operation query,
           (snd (getData this collection selections argsArray variableValues w)).(calls)
           = w.(calls) ++
             [ {| call_service := ItemsService collection;
                  call_operation := operation;
                  call_query := query;
                  call_stripNonRequested := false |} ]).
Proof.
  unfold getData.
  destruct (parseFields this variableValues selections None
              (sanitizeQuery (parseArgs argsArray variableValues) this.(accountability)))
    as [[fields query]|e].
  - rewrite getData_service_generic.
    destruct (optional_singleton (collectionInfo collection)); cbn [service_read snd calls warnings];
      (split; [reflexivity | right; eauto]).
  - unfold throw. cbn [snd]. auto.
Qed.

(** X18.  Resolving a root field hands at most one read to a service and
    logs nothing; the read goes to the generic item service of the
    field's name in the [items] scope and of [directus_] and the field's
    name in the [system] scope.  A root field without a selection set is
    resolved to [null] with no read at all. *)
Theorem resolve_hands_at_most_one_read (info : GraphQLResolveInfo) (scope : Scope)
    (w : World) :
  let collection :=
    match scope with
    | system => "directus_" +++ info.(fieldName)
    | items => info.(fieldName)
    end in
  (snd (resolve this info scope w)).(warnings) = w.(warnings)
  /\ ((snd (resolve this info scope w)).(calls) = w.(calls)
      \/ exists operation query,
           (snd (resolve this info scope w)).(calls)
           = w.(calls) ++
             [ {| call_service := ItemsService collection;
                  call_operation := operation;
                  call_query := query;
                  call_stripNonRequested := false |} ])
  /\ (forall name arguments rest,
        info.(fieldNodes) = FieldNode name arguments None :: rest ->
        resolve this info scope w = (Return JNull, w)).
Proof.
  intros collection. unfold resolve. fold collection.
  assert ((snd (ret (A := JSValue) JNull w)).(warnings) = w.(warnings)
          /\ ((snd (ret (A := JSValue) JNull w)).(calls) = w.(calls)
              \/ exists operation query,
                   (snd (ret (A := JSValue) JNull w)).(calls)
                   = w.(calls) ++
                     [ {| call_service := ItemsService collection;
                          call_operation := operation;
                          call_query := query;
                          call_stripNonRequested := false |} ])) as Hnull
    by (cbn; auto).
  destruct info.(fieldNodes) as [|[name arguments [selections|] | tc sels | name] rest].
  - destruct Hnull. repeat split; auto; discriminate.
  - destruct (getData_reads collection selections arguments info.(variableValues) w).
    repeat split; auto; discriminate.
  - destruct Hnull. repeat split; auto.
  - destruct Hnull. repeat split; auto; discriminate.
  - destruct Hnull. repeat split; auto; discriminate.
Qed.

End Requests.

(** A document that asks for a field the schema does not have is rejected
    with no read made; building the schema has logged the warning about
    the reserved field of [posts]. *)
Lemma execute_rejects_invalid_document_example :
  let params :=
    {| document :=
         [ {| operation_name := None;
              operation_selections := [ FieldNode "nope" [] (Some [ FieldNode "id" [] None ]) ] |} ];
       variables := [];
       operationName := None |} in
  let run :=
    execute (utils := Example.utils) (ext := Example.collaborators) Example.service params
      items Example.world0 in
  fst run = Throw (InvalidPayloadException "GraphQL validation error."
                     [ GraphQLError "Cannot query field nope" ])
  /\ (snd run).(calls) = []
  /\ List.length (snd run).(warnings) = 1%nat.
Proof.
  intros params run. subst run.
  destruct (getSchema (utils := Example.utils) (ext := Example.collaborators)
              Example.service items Example.world0) as [[schema|e] w1] eqn:Hschema;
    [|vm_compute in Hschema; discriminate Hschema].
  destruct (validate (Collaborators := Example.collaborators) schema params.(document))
    as [validationErrors|e] eqn:Hvalidate;
    [|vm_compute in Hschema; injection Hschema as <- <-;
      vm_compute in Hvalidate; discriminate Hvalidate].
  assert (validationErrors = [ GraphQLError "Cannot query field nope" ]) as Herrors.
  { vm_compute in Hschema. injection Hschema as <- <-.
    vm_compute in Hvalidate. now injection Hvalidate as <-. }
  destruct (execute_rejects_invalid_document (utils := Example.utils)
              (ext := Example.collaborators) Example.service params items Example.world0
              schema w1 validationErrors Hschema Hvalidate) as [Hthrown Hcalls].
  - rewrite Herrors. discriminate.
  - rewrite Hthrown, Hcalls, Herrors. split; [reflexivity|]. split; reflexivity.
Defined.

(** In the [system] scope the example schema has no root field: the
    validator of the example refuses the schema, and that error leaves
    [execute] as it is. *)
Lemma execute_exceptions_example :
  let params :=
    {| document :=
         [ {| operation_name := None;
              operation_selections := [ FieldNode "users" [] (Some [ FieldNode "id" [] None ]) ] |} ];
       variables := [];
       operationName := None |} in
  exists w,
    execute (utils := Example.utils) (ext := Example.collaborators) Example.service params
      system Example.world0
    = (Throw (Error "Type Query must define one or more fields."), w)
    /\ w.(calls) = [].
Proof.
  intros params.
  destruct (execute (utils := Example.utils) (ext := Example.collaborators)
              Example.service params system Example.world0) as [[result|e] w] eqn:Hrun;
    [vm_compute in Hrun; discriminate Hrun|].
  exists w.
  destruct (execute_exceptions (utils := Example.utils) (ext := Example.collaborators)
              Example.service params system Example.world0 e w Hrun)
    as [[Hschema _] | [schema [w1 [Hschema [Hcalls [[Hthrown ->] | [Hinvalid | Hvalid]]]]]]].
  - vm_compute in Hschema. discriminate Hschema.
  - vm_compute in Hschema. injection Hschema as <- <-.
    vm_compute in Hthrown. injection Hthrown as <-. split; reflexivity.
  - destruct Hinvalid as [validationErrors [Hvalidate _]].
    vm_compute in Hschema. injection Hschema as <- <-.
    vm_compute in Hvalidate. discriminate Hvalidate.
  - destruct Hvalid as [Hvalidate _].
    vm_compute in Hschema. injection Hschema as <- <-.
    vm_compute in Hvalidate. discriminate Hvalidate.
Defined.

Lemma resolve_hands_at_most_one_read_example :
  Example.users_info.(fieldNodes)
  = [ FieldNode "users" [] (Some [ FieldNode "email" [] None ]) ]
  /\ exists operation query,
       (snd (resolve (ext := Example.collaborators) Example.service Example.users_info
               system Example.world0)).(calls)
       = [ {| call_service := ItemsService "directus_users";
              call_operation := operation;
              call_query := query;
              call_stripNonRequested := false |} ].
Proof.
  split; [reflexivity|].
  destruct (resolve_hands_at_most_one_read (ext := Example.collaborators)
              Example.service Example.users_info system Example.world0)
    as [_ [[Hnone | Hone] _]].
  - vm_compute in Hnone. discriminate Hnone.
  - exact Hone.
Defined.

